(** * SiteFresh content pipeline: slug, normalizer, rewriter, image localizer

    A shallow embedding of the TypeScript sources under
    [sitefresh-restaurant/lib] (slug.ts, schema.ts, rewrite.ts, images.ts,
    normalize.ts, scrape.ts) and the properties of them stated in the
    specification.

    Conventions of the embedding.
    - A JavaScript string is a [string] of Rocq (a sequence of 8-bit
      characters).  It stands exactly for a JavaScript string all of whose
      code units are below 128; [toLowerCase], [\w], [\s] and [trim] are
      modelled on that range.
    - [undefined] in an optional field is [None].
    - A [throw] is the constructor [Throw] of the result type [Exc]; a
      [try { ... } catch { ... }] block is [try_catch].
    - Console output, file-system writes and network calls are recorded as a
      list of [Event]s next to the result (type [M]).
    - What the platform decides (the clock, the environment, the reply of a
      remote server, the success of a file-system call) is read from a record
      [World]. *)

From Stdlib Require Import String Ascii List ZArith QArith Bool Lia.
Import ListNotations.

Set Warnings "-register-all".

Local Open Scope string_scope.

(* ===================================================================== *)
(** ** Characters and strings as JavaScript sees them                      *)
(* ===================================================================== *)

Module Js.

Definition code (c : ascii) : nat := nat_of_ascii c.

Definition in_range (lo hi : nat) (c : ascii) : bool :=
  (lo <=? code c)%nat && (code c <=? hi)%nat.

Definition is_digit (c : ascii) : bool := in_range 48 57 c.
Definition is_upper (c : ascii) : bool := in_range 65 90 c.
Definition is_lower (c : ascii) : bool := in_range 97 122 c.
Definition is_alpha (c : ascii) : bool := is_upper c || is_lower c.

(** [\w] : letters, digits and the underscore. *)
Definition is_word (c : ascii) : bool :=
  is_alpha c || is_digit c || Ascii.eqb c "_".

(** [\s] below 128: tab, line feed, vertical tab, form feed, carriage
    return, space. *)
Definition is_space (c : ascii) : bool :=
  in_range 9 13 c || Ascii.eqb c " ".

Definition lower_char (c : ascii) : ascii :=
  if is_upper c then ascii_of_nat (code c + 32) else c.

Definition upper_char (c : ascii) : ascii :=
  if is_lower c then ascii_of_nat (code c - 32) else c.

Fixpoint map_string (f : ascii -> ascii) (s : string) : string :=
  match s with
  | EmptyString => EmptyString
  | String c s' => String (f c) (map_string f s')
  end.

Fixpoint filter_string (p : ascii -> bool) (s : string) : string :=
  match s with
  | EmptyString => EmptyString
  | String c s' => if p c then String c (filter_string p s') else filter_string p s'
  end.

Fixpoint drop_while (p : ascii -> bool) (s : string) : string :=
  match s with
  | EmptyString => EmptyString
  | String c s' => if p c then drop_while p s' else s
  end.

Fixpoint take_while (p : ascii -> bool) (s : string) : string :=
  match s with
  | EmptyString => EmptyString
  | String c s' => if p c then String c (take_while p s') else EmptyString
  end.

Fixpoint rev_append (s acc : string) : string :=
  match s with
  | EmptyString => acc
  | String c s' => rev_append s' (String c acc)
  end.

Definition rev (s : string) : string := rev_append s EmptyString.

Definition drop_while_end (p : ascii -> bool) (s : string) : string :=
  rev (drop_while p (rev s)).

(** [s.toLowerCase()] *)
Definition toLowerCase (s : string) : string := map_string lower_char s.

(** [s.trim()] *)
Definition trim (s : string) : string :=
  drop_while_end is_space (drop_while is_space s).

(** [s.startsWith(p)] *)
Definition startsWith (p s : string) : bool := String.prefix p s.

(** [s.includes(p)] *)
Fixpoint includes (p s : string) : bool :=
  String.prefix p s ||
  match s with
  | EmptyString => false
  | String _ s' => includes p s'
  end.

(** Truthiness of a string value: the empty string is falsy. *)
Definition truthy (s : string) : bool :=
  match s with EmptyString => false | _ => true end.

(** Truthiness of an optional string: [undefined] and the empty string are
    falsy. *)
Definition truthy_opt (o : option string) : bool :=
  match o with Some s => truthy s | None => false end.

(** [a || b] on an optional string and a default. *)
Definition or_default (o : option string) (d : string) : string :=
  match o with
  | Some s => if truthy s then s else d
  | None => d
  end.

(** [s.split(sep)] for a one-character separator. *)
Fixpoint split_on (sep : ascii) (s : string) : list string :=
  match s with
  | EmptyString => [EmptyString]
  | String c s' =>
      if Ascii.eqb c sep then EmptyString :: split_on sep s'
      else match split_on sep s' with
           | [] => [String c EmptyString]
           | w :: ws => String c w :: ws
           end
  end.

End Js.

(* ===================================================================== *)
(** ** Exceptions and effects                                              *)
(* ===================================================================== *)

Inductive Error : Type :=
| TypeError (msg : string)       (* new URL, fetch, property access *)
| SyntaxError (msg : string)     (* JSON.parse *)
| ZodError                       (* schema.parse *)
| JsError (msg : string)         (* new Error(msg) *)
| IoError (msg : string).        (* fs calls, rejected network calls *)

Inductive Exc (A : Type) : Type :=
| Ok (a : A)
| Throw (e : Error).
Arguments Ok {A} a.
Arguments Throw {A} e.

Inductive Event : Type :=
| ConsoleLog (msg : string)
| ConsoleError (msg : string)
| ChatCompletionRequest            (* openai.chat.completions.create *)
| FetchRequest (url : string)      (* fetch(url) *)
| FsMkdir (dir : string)           (* fs.mkdirSync *)
| FsWrite (path : string).         (* fs.writeFileSync *)

(** An effectful computation: the events it emitted, then how it ended. *)
Definition M (A : Type) : Type := (list Event * Exc A)%type.

Definition ret {A} (a : A) : M A := ([], Ok a).

Definition bind {A B} (m : M A) (f : A -> M B) : M B :=
  match m with
  | (ev, Ok a) => let (ev', r) := f a in ((ev ++ ev')%list, r)
  | (ev, Throw e) => (ev, Throw e)
  end.

Definition throw {A} (e : Error) : M A := ([], Throw e).

Definition emit (e : Event) : M unit := ([e], Ok tt).

Definition lift {A} (r : Exc A) : M A := ([], r).

(** [try { body } catch (e) { handler e }] *)
Definition try_catch {A} (body : M A) (handler : Error -> M A) : M A :=
  match body with
  | (ev, Ok a) => (ev, Ok a)
  | (ev, Throw e) => let (ev', r) := handler e in ((ev ++ ev')%list, r)
  end.

Definition events {A} (m : M A) : list Event := fst m.
Definition outcome {A} (m : M A) : Exc A := snd m.

Declare Scope js_scope.
Delimit Scope js_scope with js.
Notation "x <- m ;; k" := (bind m (fun x => k))
  (at level 61, m at next level, right associativity) : js_scope.
Notation "m ;; k" := (bind m (fun _ => k))
  (at level 61, right associativity) : js_scope.
Local Open Scope js_scope.

(** Bind of the exception-only fragment, for code without other effects. *)
Definition ebind {A B} (r : Exc A) (f : A -> Exc B) : Exc B :=
  match r with
  | Ok a => f a
  | Throw e => Throw e
  end.

Fixpoint emap {A B} (f : A -> Exc B) (l : list A) : Exc (list B) :=
  match l with
  | [] => Ok []
  | a :: l' => ebind (f a) (fun b => ebind (emap f l') (fun bs => Ok (b :: bs)))
  end.

(** [for (const x of l) { body x }] where the body yields the element as it
    is after the iteration. *)
Fixpoint for_each {A} (body : A -> M A) (l : list A) : M (list A) :=
  match l with
  | [] => ret []
  | a :: l' => a' <- body a ;; l'' <- for_each body l' ;; ret (a' :: l'')
  end.

(* ===================================================================== *)
(** ** The platform's URL parser                                           *)
(* ===================================================================== *)

(** [new URL(s)] is not code of the repository.  This is a model of the
    WHATWG URL parser as far as the repository uses it: whether the string
    parses without a base URL, and the [protocol], [hostname] and
    [pathname] of the result.  It covers hosts written with characters
    below 128; it does not percent-decode hosts, does not rewrite numeric
    hosts to dotted IPv4 form, rejects bracketed IPv6 literals, and leaves
    dot segments of the path as written.  The port is checked and not
    kept. *)
Module Url.

Record t : Type := mk {
  protocol : string;   (* scheme followed by a colon *)
  hostname : string;
  pathname : string
}.

Definition is_c0_or_space (c : ascii) : bool := (Js.code c <=? 32)%nat.

Definition is_tab_or_newline (c : ascii) : bool :=
  (Js.code c =? 9)%nat || (Js.code c =? 10)%nat || (Js.code c =? 13)%nat.

Definition one_of (cs : string) (c : ascii) : bool :=
  existsb (Ascii.eqb c) (list_ascii_of_string cs).

(** Leading and trailing C0 controls and spaces are removed, then every
    tab and newline. *)
Definition preprocess (s : string) : string :=
  Js.filter_string (fun c => negb (is_tab_or_newline c))
    (Js.drop_while_end is_c0_or_space (Js.drop_while is_c0_or_space s)).

Definition is_scheme_char (c : ascii) : bool :=
  Js.is_alpha c || Js.is_digit c || one_of "+-." c.

(** Scheme start state and scheme state: a letter, then scheme characters,
    then a colon.  Without a base URL anything else is a failure. *)
Definition split_scheme (s : string) : option (string * string) :=
  match s with
  | String c _ =>
      if Js.is_alpha c then
        match Js.drop_while is_scheme_char s with
        | String ":" rest => Some (Js.toLowerCase (Js.take_while is_scheme_char s), rest)
        | _ => None
        end
      else None
  | EmptyString => None
  end.

Definition is_special (scheme : string) : bool :=
  existsb (String.eqb scheme) ["http"; "https"; "ws"; "wss"; "ftp"].

Definition is_slash (c : ascii) : bool := one_of "/\" c.

(** The forbidden host code points, and the forbidden domain code points
    (those, the C0 controls, the percent sign and DEL). *)
Definition forbidden_host (c : ascii) : bool :=
  (Js.code c =? 0)%nat || is_tab_or_newline c || one_of " #/:<>?@[\]^|" c.

Definition forbidden_domain (c : ascii) : bool :=
  forbidden_host c || (Js.code c <=? 31)%nat || Ascii.eqb c "%"
  || (127 <=? Js.code c)%nat.

Definition all_chars (p : ascii -> bool) (s : string) : bool :=
  forallb p (list_ascii_of_string s).

(** The authority without its credentials: what follows the last [@]. *)
Definition after_credentials (authority : string) : string :=
  Js.rev (Js.take_while (fun c => negb (Ascii.eqb c "@")) (Js.rev authority)).

Definition has_credentials (authority : string) : bool :=
  existsb (Ascii.eqb "@") (list_ascii_of_string authority).

Definition not_colon (c : ascii) : bool := negb (Ascii.eqb c ":").

Fixpoint decimal (s : string) (acc : N) : N :=
  match s with
  | EmptyString => acc
  | String c s' => decimal s' (acc * 10 + N.of_nat (Js.code c - 48))%N
  end.

(** Port state: digits only, at most 65535; an empty port is allowed. *)
Definition parse_port (p : string) : option string :=
  if all_chars Js.is_digit p && (decimal p 0 <=? 65535)%N then Some p else None.

(** The host of an authority whose credentials are removed, and whether a
    colon follows it; [None] when what follows the colon is no port. *)
Definition split_host_port (hp : string) : option (string * bool) :=
  let host := Js.take_while not_colon hp in
  match Js.drop_while not_colon hp with
  | EmptyString => Some (host, false)
  | String _ p =>
      match parse_port p with
      | Some _ => Some (host, true)
      | None => None
      end
  end.

Definition ends_path (c : ascii) : bool := one_of "?#" c.

Definition path_of (special : bool) (rest : string) : string :=
  let p := Js.take_while (fun c => negb (ends_path c)) rest in
  if special then
    match p with
    | EmptyString => "/"
    | _ => Js.map_string (fun c => if Ascii.eqb c "\" then "/"%char else c) p
    end
  else p.

Definition failure {A} : Exc A := Throw (TypeError "Invalid URL").

(** A host of a special scheme: a non-empty domain, lower-cased. *)
Definition parse_domain (allow_empty : bool) (h : string) : Exc string :=
  match h with
  | EmptyString => if allow_empty then Ok EmptyString else failure
  | _ => if all_chars (fun c => negb (forbidden_domain c)) h
         then Ok (Js.toLowerCase h) else failure
  end.

(** A host of any other scheme: opaque, kept as written. *)
Definition parse_opaque_host (h : string) : Exc string :=
  if all_chars (fun c => negb (forbidden_host c)) h then Ok h else failure.

Definition parse_authority (special : bool) (scheme after_slashes : string) : Exc t :=
  let stop := fun c => if special then one_of "/\?#" c else one_of "/?#" c in
  let authority := Js.take_while (fun c => negb (stop c)) after_slashes in
  let rest := Js.drop_while (fun c => negb (stop c)) after_slashes in
  match split_host_port (after_credentials authority) with
  | None => failure
  | Some (h, has_colon) =>
      match h with
      | EmptyString =>
          if special || has_credentials authority || has_colon then failure
          else Ok (mk (scheme ++ ":") EmptyString (path_of special rest))
      | _ =>
          ebind (if special then parse_domain false h else parse_opaque_host h)
            (fun host => Ok (mk (scheme ++ ":") host (path_of special rest)))
      end
  end.

Definition parse_file (rest : string) : Exc t :=
  match rest with
  | String a (String b after) =>
      if is_slash a && is_slash b then
        let stop := one_of "/\?#" in
        let h := Js.take_while (fun c => negb (stop c)) after in
        let rest' := Js.drop_while (fun c => negb (stop c)) after in
        ebind (parse_domain true h) (fun host =>
          Ok (mk "file:" (if String.eqb host "localhost" then EmptyString else host)
                 (path_of true rest')))
      else Ok (mk "file:" EmptyString (path_of true rest))
  | _ => Ok (mk "file:" EmptyString (path_of true rest))
  end.

(** [new URL(input)] with no base. *)
Definition parse (input : string) : Exc t :=
  match split_scheme (preprocess input) with
  | None => failure
  | Some (scheme, rest) =>
      if is_special scheme then
        parse_authority true scheme (Js.drop_while is_slash rest)
      else if String.eqb scheme "file" then parse_file rest
      else
        match rest with
        | String "/" (String "/" after) => parse_authority false scheme after
        | _ => Ok (mk (scheme ++ ":") EmptyString (path_of false rest))
        end
  end.

End Url.

(* ===================================================================== *)
(** ** lib/slug.ts                                                         *)
(* ===================================================================== *)

Module Slug.

Definition is_hyphen (c : ascii) : bool := Ascii.eqb c "-".

(** [.replace(/[^\w\s-]/g, '')] : every character that is not a word
    character, white space or a hyphen is deleted. *)
Definition remove_special (s : string) : string :=
  Js.filter_string (fun c => Js.is_word c || Js.is_space c || is_hyphen c) s.

Definition is_separator (c : ascii) : bool :=
  Js.is_space c || Ascii.eqb c "_" || is_hyphen c.

(** [.replace(/[\s_-]+/g, '-')] : every maximal run of white space,
    underscores and hyphens becomes one hyphen.  [in_run] tells that the
    previous character belonged to the run being replaced. *)
Fixpoint hyphenate_runs (in_run : bool) (s : string) : string :=
  match s with
  | EmptyString => EmptyString
  | String c s' =>
      if is_separator c then
        if in_run then hyphenate_runs true s'
        else String "-" (hyphenate_runs true s')
      else String c (hyphenate_runs false s')
  end.

(** [.replace(/^-+|-+$/g, '')] : the leading and the trailing run of
    hyphens are deleted. *)
Definition strip_hyphens (s : string) : string :=
  Js.drop_while_end is_hyphen (Js.drop_while is_hyphen s).

Definition slugify (text : string) : string :=
  strip_hyphens (hyphenate_runs false (remove_special (Js.toLowerCase text))).

(** [hostname.replace(/^www\./, '')] *)
Definition strip_www (hostname : string) : string :=
  match hostname with
  | String "w" (String "w" (String "w" (String "." rest))) => rest
  | _ => hostname
  end.

Definition createSlugFromUrl (url : string) : M string :=
  try_catch
    (urlObj <- lift (Url.parse url) ;;
     let hostname := strip_www (Url.hostname urlObj) in
     ret (slugify hostname))
    (fun _ => ret (slugify url)).

End Slug.

(* ===================================================================== *)
(** ** Regular expressions of the platform                                 *)
(* ===================================================================== *)

(** A backtracking matcher with capture groups, with the priorities of the
    ECMAScript matcher: alternatives are tried left to right, quantifiers
    are greedy, an iteration of a quantifier that consumes nothing is
    refused.  Literals are compared ignoring case (the patterns that use
    this matcher carry the flag [i]).  No pattern of the repository has a
    capture group under a star, so capture reset between iterations is not
    modelled. *)
Module Regex.

Inductive t : Type :=
| Eps
| Char (p : ascii -> bool)
| Lit (s : string)
| Seq (a b : t)
| Alt (a b : t)
| Star (a : t)
| Opt (a : t)
| Group (n : nat) (a : t).

Definition captures : Type := list (nat * string).

Fixpoint strip_prefix_ci (l s : string) : option string :=
  match l, s with
  | EmptyString, _ => Some s
  | String a l', String c s' =>
      if Ascii.eqb (Js.lower_char a) (Js.lower_char c) then strip_prefix_ci l' s' else None
  | String _ _, EmptyString => None
  end.

(** The part of [s] consumed when [s'] is what remains of it. *)
Definition consumed (s s' : string) : string :=
  String.substring 0 (String.length s - String.length s') s.

Definition progress (s s' : string) : bool :=
  (String.length s' <? String.length s)%nat.

Fixpoint run (r : t) (s : string) (caps : captures)
    (k : string -> captures -> option captures) {struct r} : option captures :=
  match r with
  | Eps => k s caps
  | Char p =>
      match s with
      | String c s' => if p c then k s' caps else None
      | EmptyString => None
      end
  | Lit l =>
      match strip_prefix_ci l s with
      | Some s' => k s' caps
      | None => None
      end
  | Seq a b => run a s caps (fun s' caps' => run b s' caps' k)
  | Alt a b =>
      match run a s caps k with
      | Some c => Some c
      | None => run b s caps k
      end
  | Opt a =>
      match run a s caps (fun s' caps' => if progress s s' then k s' caps' else None) with
      | Some c => Some c
      | None => k s caps
      end
  | Star a =>
      (fix loop (n : nat) (s : string) (caps : captures) {struct n} : option captures :=
         match n with
         | O => k s caps
         | S n' =>
             match run a s caps
                     (fun s' caps' => if progress s s' then loop n' s' caps' else None) with
             | Some c => Some c
             | None => k s caps
             end
         end) (String.length s) s caps
  | Group n a => run a s caps (fun s' caps' => k s' ((n, consumed s s') :: caps'))
  end.

(** [s.match(r)] for a pattern without the flag [g]: the leftmost match,
    group 0 being the whole match. *)
Fixpoint exec (r : t) (s : string) : option captures :=
  match run r s [] (fun s' caps => Some ((0%nat, consumed s s') :: caps)) with
  | Some c => Some c
  | None =>
      match s with
      | String _ s' => exec r s'
      | EmptyString => None
      end
  end.

(** [match[n]] : [None] when the group took no part in the match. *)
Fixpoint group (n : nat) (caps : captures) : option string :=
  match caps with
  | [] => None
  | (m, v) :: caps' => if Nat.eqb n m then Some v else group n caps'
  end.

Fixpoint alt_lits (ls : list string) : t :=
  match ls with
  | [] => Char (fun _ => false)
  | [l] => Lit l
  | l :: ls' => Alt (Lit l) (alt_lits ls')
  end.

Definition seq (rs : list t) : t := fold_right Seq Eps rs.

End Regex.

(* ===================================================================== *)
(** ** lib/schema.ts : the data model                                      *)
(* ===================================================================== *)

Module Address.
Record t : Type := mk {
  street : option string;
  city : option string;
  state : option string;
  postalCode : option string;
  country : option string;
  googleMapsUrl : option string
}.
End Address.

Module Hour.
Record t : Type := mk { day : string; open : string; close : string }.
End Hour.

Inductive Dietary : Type := vegan | veg | gf | spicy | halal | kosher.

Module MenuItem.
Record t : Type := mk {
  name : string;
  description : option string;
  price : option string;
  image : option string;
  dietary : option (list Dietary)
}.
End MenuItem.

Module MenuCategory.
Record t : Type := mk { name : string; items : list MenuItem.t }.
End MenuCategory.

Module Review.
Record t : Type := mk {
  source : option string;
  text : string;
  rating : option Q;
  author : option string
}.
End Review.

Module Social.
Record t : Type := mk {
  instagram : option string;
  facebook : option string;
  tiktok : option string;
  x : option string
}.
End Social.

Module SiteSection.
Record t : Type := mk { title : string; body : string; image : option string }.
End SiteSection.

Module Theme.
Record t : Type := mk { primary : string; accent : string; heroOverlay : string }.
End Theme.

Module RestaurantSite.
Record t : Type := mk {
  slug : string;
  name : string;
  tagline : option string;
  heroImage : option string;
  logo : option string;
  phone : option string;
  email : option string;
  address : option Address.t;
  hours : option (list Hour.t);
  reservationUrl : option string;
  orderOnlineUrl : option string;
  social : option Social.t;
  sections : option (list SiteSection.t);
  reviews : option (list Review.t);
  menu : option (list MenuCategory.t);
  images : option (list string);
  theme : Theme.t;
  sourceUrl : string;
  lastScrapedAt : string
}.
End RestaurantSite.

(* ===================================================================== *)
(** ** lib/scrape.ts : the raw record                                      *)
(* ===================================================================== *)

Module ScrapedAddress.
Record t : Type := mk {
  street : option string;
  city : option string;
  state : option string;
  postalCode : option string;
  country : option string
}.
End ScrapedAddress.

Module ScrapedItem.
Record t : Type := mk {
  name : string;
  description : option string;
  price : option string;
  image : option string
}.
End ScrapedItem.

Module ScrapedCategory.
Record t : Type := mk { name : string; items : list ScrapedItem.t }.
End ScrapedCategory.

Module ScrapedData.
Record t : Type := mk {
  name : option string;
  tagline : option string;
  phone : option string;
  email : option string;
  address : option ScrapedAddress.t;
  hours : option string;
  heroImage : option string;
  logo : option string;
  images : list string;
  sections : list SiteSection.t;
  menu : list ScrapedCategory.t;
  social : Social.t;
  reviews : list Review.t
}.
End ScrapedData.

(** What the platform decides during one run of the pipeline. *)

Inductive ApiReply : Type :=
| ApiRejects (e : Error)
    (* the promise of [openai.chat.completions.create] rejects: time-out,
       network failure, HTTP error of the service *)
| ApiResolves (content : option string).
    (* [response.choices[0]?.message?.content]; [None] for undefined or null *)

Inductive FetchReply : Type :=
| FetchRejects (e : Error)
| FetchResponse (ok : bool) (status statusText : string) (body_readable : bool).

Record World : Type := {
  now_iso : string;                           (* new Date().toISOString() *)
  env_OPENAI_API_KEY : option string;         (* process.env.OPENAI_API_KEY *)
  chat_completion : RestaurantSite.t -> ApiReply;
  cwd : string;                               (* process.cwd() *)
  fs_exists : string -> bool;                 (* fs.existsSync *)
  fs_mkdir_ok : string -> bool;               (* fs.mkdirSync returns *)
  fs_write_ok : string -> bool;               (* fs.writeFileSync returns *)
  fetch : string -> FetchReply
}.

Module Scrape.

(** What cheerio reports about one element matched by a review selector. *)
Record ReviewElement : Type := {
  el_text : string;          (* $review.text() *)
  el_rating_text : string;   (* $review.find('.rating, .stars').text() *)
  el_author_text : string    (* $review.find('.author, .name').text() *)
}.

(** The parsed page, as far as [extractReviews] queries it: the elements
    matched by a selector, in document order. *)
Definition Document : Type := string -> list ReviewElement.

Definition reviewSelectors : list string :=
  [".review"; ".testimonial"; ".customer-review"; ".rating"].

(** [s.match(/\d+/)?.[0]] : the first maximal run of digits. *)
Definition first_digits (s : string) : option string :=
  match Js.take_while Js.is_digit (Js.drop_while (fun c => negb (Js.is_digit c)) s) with
  | EmptyString => None
  | d => Some d
  end.

Fixpoint parseInt_from (acc : Z) (digits : string) : Z :=
  match digits with
  | EmptyString => acc
  | String c d' => parseInt_from (acc * 10 + Z.of_nat (Js.code c - 48)) d'
  end.

(** [parseInt] on a non-empty string of decimal digits. *)
Definition parseInt (digits : string) : Z := parseInt_from 0 digits.

Definition review_of_element (el : ReviewElement) : list Review.t :=
  let text := Js.trim (el_text el) in
  let rating := first_digits (el_rating_text el) in
  let author := Js.trim (el_author_text el) in
  if Js.truthy text && (20 <? String.length text)%nat then
    [ Review.mk None text
        (match rating with Some d => Some (inject_Z (parseInt d)) | None => None end)
        (if Js.truthy author then Some author else None) ]
  else [].

Definition extractReviews (doc : Document) : list Review.t :=
  flat_map (fun selector => flat_map review_of_element (doc selector)) reviewSelectors.

End Scrape.

(* ===================================================================== *)
(** ** lib/normalize.ts                                                    *)
(* ===================================================================== *)

Module Normalize.

Definition day_names : list string :=
  ["monday"; "tuesday"; "wednesday"; "thursday"; "friday"; "saturday"; "sunday";
   "mon"; "tue"; "wed"; "thu"; "fri"; "sat"; "sun"].

Import Regex.

Definition re_day : Regex.t := alt_lits day_names.

(** [\d{1,2}:\d{2}\s*(am|pm)?] with the inner group numbered [n]. *)
Definition re_time (n : nat) : Regex.t :=
  seq [Char Js.is_digit; Opt (Char Js.is_digit); Lit ":";
       Char Js.is_digit; Char Js.is_digit;
       Star (Char Js.is_space);
       Opt (Group n (Alt (Lit "am") (Lit "pm")))].

Definition space_or_colon (c : ascii) : bool := Js.is_space c || Ascii.eqb c ":".
Definition space_or_hyphen (c : ascii) : bool := Js.is_space c || Ascii.eqb c "-".

(** /(monday|...|sun)[\s:]*(\d{1,2}:\d{2}\s*(am|pm)?)[\s-]*(\d{1,2}:\d{2}\s*(am|pm)?)/i *)
Definition pattern_single_day : Regex.t :=
  seq [Group 1 re_day; Star (Char space_or_colon);
       Group 2 (re_time 3); Star (Char space_or_hyphen);
       Group 4 (re_time 5)].

(** /(monday|...|sun)[\s-]*(monday|...|sun)[\s:]*(\d{1,2}:\d{2}\s*(am|pm)?)[\s-]*(\d{1,2}:\d{2}\s*(am|pm)?)/i *)
Definition pattern_day_range : Regex.t :=
  seq [Group 1 re_day; Star (Char space_or_hyphen);
       Group 2 re_day; Star (Char space_or_colon);
       Group 3 (re_time 4); Star (Char space_or_hyphen);
       Group 5 (re_time 6)].

Definition patterns : list Regex.t := [pattern_single_day; pattern_day_range].

Definition normalizeTime (time : string) : string :=
  let cleanTime := Js.toLowerCase (Js.trim time) in
  if Js.includes "am" cleanTime || Js.includes "pm" cleanTime then cleanTime
  else cleanTime.

(** [a || b] on two capture groups. *)
Definition or_group (a b : option string) : option string :=
  if Js.truthy_opt a then a else b.

(** [day.charAt(0).toUpperCase() + day.slice(1)] *)
Definition capitalize (day : string) : string :=
  match day with
  | EmptyString => EmptyString
  | String c d' => String (Js.upper_char c) d'
  end.

(** The inner loop over the patterns for one line: the entry pushed, if
    any.  The loop goes on to the next pattern when a pattern does not
    match, or matches with an empty open or close. *)
Fixpoint first_entry (ps : list Regex.t) (line : string) : option Hour.t :=
  match ps with
  | [] => None
  | pattern :: ps' =>
      match Regex.exec pattern line with
      | Some m =>
          let day := Js.toLowerCase (match group 1 m with Some d => d | None => EmptyString end) in
          let open := or_group (group 2 m) (group 3 m) in
          let close := or_group (group 4 m) (group 5 m) in
          match open, close with
          | Some o, Some c =>
              if Js.truthy o && Js.truthy c then
                Some (Hour.mk (capitalize day) (normalizeTime o) (normalizeTime c))
              else first_entry ps' line
          | _, _ => first_entry ps' line
          end
      | None => first_entry ps' line
      end
  end.

Definition hour_lines (hoursString : string) : list string :=
  filter Js.truthy (map Js.trim (Js.split_on "010"%char hoursString)).

Definition parseHours (hoursString : option string) : option (list Hour.t) :=
  match hoursString with
  | None => None
  | Some s =>
      if Js.truthy s then
        let hours := flat_map (fun line =>
                       match first_entry patterns line with
                       | Some h => [h]
                       | None => []
                       end) (hour_lines s) in
        match hours with
        | [] => None
        | _ => Some hours
        end
      else None
  end.

Definition default_theme : Theme.t :=
  Theme.mk "#b91c1c" "#111827" "rgba(0,0,0,0.35)".

Definition normalizeRestaurantData (w : World) (scrapedData : ScrapedData.t)
    (sourceUrl : string) : M RestaurantSite.t :=
  slug <- Slug.createSlugFromUrl sourceUrl ;;
  let hours := parseHours (ScrapedData.hours scrapedData) in
  let address :=
    match ScrapedData.address scrapedData with
    | Some a =>
        Some (Address.mk (ScrapedAddress.street a) (ScrapedAddress.city a)
                (ScrapedAddress.state a) (ScrapedAddress.postalCode a)
                (ScrapedAddress.country a) None)
    | None => None
    end in
  let menu :=
    map (fun category =>
           MenuCategory.mk (ScrapedCategory.name category)
             (map (fun item =>
                     MenuItem.mk (ScrapedItem.name item) (ScrapedItem.description item)
                       (ScrapedItem.price item) (ScrapedItem.image item) None)
                  (ScrapedCategory.items category)))
        (ScrapedData.menu scrapedData) in
  let sections :=
    map (fun section =>
           SiteSection.mk (SiteSection.title section) (SiteSection.body section)
             (SiteSection.image section))
        (ScrapedData.sections scrapedData) in
  let reviews :=
    map (fun review =>
           Review.mk (Review.source review) (Review.text review)
             (Review.rating review) (Review.author review))
        (ScrapedData.reviews scrapedData) in
  ret (RestaurantSite.mk
         slug
         (Js.or_default (ScrapedData.name scrapedData) "Restaurant")
         (ScrapedData.tagline scrapedData)
         (ScrapedData.heroImage scrapedData)
         (ScrapedData.logo scrapedData)
         (ScrapedData.phone scrapedData)
         (ScrapedData.email scrapedData)
         address
         hours
         None                         (* scrapedData.reservationUrl: no such field *)
         None                         (* scrapedData.orderOnlineUrl: no such field *)
         (Some (ScrapedData.social scrapedData))
         (Some sections)
         (Some reviews)
         (Some menu)
         (Some (ScrapedData.images scrapedData))
         default_theme
         sourceUrl
         (now_iso w)).

End Normalize.

(* ===================================================================== *)
(** ** The platform's JSON parser                                          *)
(* ===================================================================== *)

(** [JSON.parse] is not code of the repository.  Numbers are kept as exact
    rationals; an escape [\uXXXX] above 127 is stored as the UTF-8 bytes of
    that code. *)
Module Json.

Inductive value : Type :=
| Null
| Bool (b : bool)
| Num (q : Q)
| Str (s : string)
| Arr (elements : list value)
| Obj (members : list (string * value)).

Definition is_ws (c : ascii) : bool :=
  Ascii.eqb c " " || (Js.code c =? 9)%nat || (Js.code c =? 10)%nat || (Js.code c =? 13)%nat.

Definition skip_ws (s : string) : string := Js.drop_while is_ws s.

(** The quotation mark that delimits a string literal. *)
Definition quote : ascii := ascii_of_nat 34.
Definition is_quote (c : ascii) : bool := Ascii.eqb c quote.

Definition hex_digit (c : ascii) : option nat :=
  if Js.is_digit c then Some (Js.code c - 48)%nat
  else if Js.in_range 97 102 c then Some (Js.code c - 87)%nat
  else if Js.in_range 65 70 c then Some (Js.code c - 55)%nat
  else None.

Definition hex4 (a b c d : ascii) : option nat :=
  match hex_digit a, hex_digit b, hex_digit c, hex_digit d with
  | Some x, Some y, Some z, Some u => Some (((x * 16 + y) * 16 + z) * 16 + u)%nat
  | _, _, _, _ => None
  end.

Definition utf8 (n : nat) : string :=
  if (n <? 128)%nat then String (ascii_of_nat n) EmptyString
  else if (n <? 2048)%nat then
    String (ascii_of_nat (192 + n / 64)) (String (ascii_of_nat (128 + n mod 64)) EmptyString)
  else
    String (ascii_of_nat (224 + n / 4096))
      (String (ascii_of_nat (128 + (n / 64) mod 64))
         (String (ascii_of_nat (128 + n mod 64)) EmptyString)).

Definition simple_escape (e : ascii) : option ascii :=
  if is_quote e then Some quote
  else if Ascii.eqb e "\" then Some "\"%char
  else if Ascii.eqb e "/" then Some "/"%char
  else if Ascii.eqb e "b" then Some "008"%char
  else if Ascii.eqb e "f" then Some "012"%char
  else if Ascii.eqb e "n" then Some "010"%char
  else if Ascii.eqb e "r" then Some "013"%char
  else if Ascii.eqb e "t" then Some "009"%char
  else None.

(** The characters of a string literal after its opening quote, and what
    follows the closing quote. *)
Fixpoint parse_string_body (s : string) : option (string * string) :=
  match s with
  | EmptyString => None
  | String c s' =>
      if is_quote c then Some (EmptyString, s')
      else if Ascii.eqb c "\" then
        match s' with
        | String e s'' =>
            if Ascii.eqb e "u" then
              match s'' with
              | String h1 (String h2 (String h3 (String h4 rest))) =>
                  match hex4 h1 h2 h3 h4, parse_string_body rest with
                  | Some n, Some (str, r) => Some (utf8 n ++ str, r)
                  | _, _ => None
                  end
              | _ => None
              end
            else
              match simple_escape e, parse_string_body s'' with
              | Some d, Some (str, r) => Some (String d str, r)
              | _, _ => None
              end
        | EmptyString => None
        end
      else if (Js.code c <? 32)%nat then None
      else
        match parse_string_body s' with
        | Some (str, r) => Some (String c str, r)
        | None => None
        end
  end.

Definition digits_of (s : string) : string * string :=
  (Js.take_while Js.is_digit s, Js.drop_while Js.is_digit s).

Definition nat_value (digits : string) : Z := Scrape.parseInt digits.

Definition pow10 (e : Z) : Q :=
  if (0 <=? e)%Z then inject_Z (10 ^ e) else Qinv (inject_Z (10 ^ (- e))).

(** A JSON number: an optional minus sign; a zero, or a non-zero digit
    followed by digits; optionally a point and digits; optionally [e] or
    [E], a sign and digits. *)
Definition parse_number (s : string) : option (Q * string) :=
  let (negative, s1) :=
    match s with
    | String "-" r => (true, r)
    | _ => (false, s)
    end in
  let int_part :=
    match s1 with
    | String "0" r => Some ("0", r)
    | String c _ => if Js.is_digit c then Some (digits_of s1) else None
    | EmptyString => None
    end in
  match int_part with
  | None => None
  | Some (i, s2) =>
      let frac_part :=
        match s2 with
        | String "." r =>
            match digits_of r with
            | (EmptyString, _) => None
            | (f, r') => Some (f, r')
            end
        | _ => Some (EmptyString, s2)
        end in
      match frac_part with
      | None => None
      | Some (f, s3) =>
          let exp_part :=
            match s3 with
            | String c r =>
                if Ascii.eqb c "e" || Ascii.eqb c "E" then
                  let (neg_e, r1) :=
                    match r with
                    | String "-" r' => (true, r')
                    | String "+" r' => (false, r')
                    | _ => (false, r)
                    end in
                  match digits_of r1 with
                  | (EmptyString, _) => None
                  | (e, r2) => Some (if neg_e then (- nat_value e)%Z else nat_value e, r2)
                  end
                else Some (0%Z, s3)
            | EmptyString => Some (0%Z, s3)
            end in
          match exp_part with
          | None => None
          | Some (e, s4) =>
              let mantissa := nat_value (i ++ f) in
              let q := Qred (inject_Z mantissa * pow10 (e - Z.of_nat (String.length f))) in
              Some (if negative then Qred (- q) else q, s4)
          end
      end
  end.

Fixpoint parse_value (fuel : nat) (s : string) {struct fuel} : option (value * string) :=
  match fuel with
  | O => None
  | S fuel' =>
      match skip_ws s with
      | String "n" (String "u" (String "l" (String "l" r))) => Some (Null, r)
      | String "t" (String "r" (String "u" (String "e" r))) => Some (Bool true, r)
      | String "f" (String "a" (String "l" (String "s" (String "e" r)))) => Some (Bool false, r)
      | String "[" r =>
          match skip_ws r with
          | String "]" r' => Some (Arr [], r')
          | _ =>
              match parse_elements fuel' r with
              | Some (vs, r') => Some (Arr vs, r')
              | None => None
              end
          end
      | String "{" r =>
          match skip_ws r with
          | String "}" r' => Some (Obj [], r')
          | _ =>
              match parse_members fuel' r with
              | Some (ms, r') => Some (Obj ms, r')
              | None => None
              end
          end
      | String c r as s' =>
          if is_quote c then
            match parse_string_body r with
            | Some (str, r') => Some (Str str, r')
            | None => None
            end
          else
            match parse_number s' with
            | Some (q, r') => Some (Num q, r')
            | None => None
            end
      | EmptyString => None
      end
  end

with parse_elements (fuel : nat) (s : string) {struct fuel} : option (list value * string) :=
  match fuel with
  | O => None
  | S fuel' =>
      match parse_value fuel' s with
      | Some (v, r) =>
          match skip_ws r with
          | String "," r' =>
              match parse_elements fuel' r' with
              | Some (vs, r'') => Some (v :: vs, r'')
              | None => None
              end
          | String "]" r' => Some ([v], r')
          | _ => None
          end
      | None => None
      end
  end

with parse_members (fuel : nat) (s : string) {struct fuel}
    : option (list (string * value) * string) :=
  match fuel with
  | O => None
  | S fuel' =>
      match skip_ws s with
      | String c r =>
          if negb (is_quote c) then None else
          match parse_string_body r with
          | Some (key, r1) =>
              match skip_ws r1 with
              | String ":" r2 =>
                  match parse_value fuel' r2 with
                  | Some (v, r3) =>
                      match skip_ws r3 with
                      | String "," r4 =>
                          match parse_members fuel' r4 with
                          | Some (ms, r5) => Some ((key, v) :: ms, r5)
                          | None => None
                          end
                      | String "}" r4 => Some ([(key, v)], r4)
                      | _ => None
                      end
                  | None => None
                  end
              | _ => None
              end
          | None => None
          end
      | EmptyString => None
      end
  end.

(** [JSON.parse(text)].  The fuel bounds the depth of the calls of the
    three functions above; a document that needs more is reported as a
    syntax error. *)
Definition parse (text : string) : Exc value :=
  match parse_value (2 * String.length text + 2) text with
  | Some (v, r) =>
      match skip_ws r with
      | EmptyString => Ok v
      | _ => Throw (SyntaxError "Unexpected non-whitespace character after JSON")
      end
  | None => Throw (SyntaxError "Unexpected token in JSON")
  end.

(** [obj[key]] : of several members with one key the last one counts. *)
Fixpoint lookup (key : string) (members : list (string * value)) : option value :=
  match members with
  | [] => None
  | (k, v) :: ms =>
      match lookup key ms with
      | Some v' => Some v'
      | None => if String.eqb k key then Some v else None
      end
  end.

End Json.

(* ===================================================================== *)
(** ** lib/schema.ts : validation                                          *)
(* ===================================================================== *)

Notation "x <-- m ;; k" := (ebind m (fun x => k))
  (at level 61, m at next level, right associativity) : js_scope.

(** The combinators of the validation library, as [schema.ts] uses them.
    A schema applied to a parsed JSON value yields the validated value or
    throws [ZodError].  Objects are validated key by key and unknown keys
    are dropped; an absent key is [undefined]; [null] is not [undefined]. *)
Module Zod.

Definition schema (A : Type) : Type := Json.value -> Exc A.

Definition invalid {A} : Exc A := Throw ZodError.

(** [z.string()] *)
Definition string_ : schema string :=
  fun j => match j with Json.Str s => Ok s | _ => invalid end.

(** [z.string().url()] : the string must be accepted by [new URL]. *)
Definition url : schema string :=
  fun j =>
    s <-- string_ j ;;
    match Url.parse s with
    | Ok _ => Ok s
    | Throw _ => invalid
    end.

(** [z.number()] *)
Definition number : schema Q :=
  fun j => match j with Json.Num q => Ok q | _ => invalid end.

(** [.min(lo).max(hi)] on a number *)
Definition min_max (lo hi : Q) (s : schema Q) : schema Q :=
  fun j =>
    q <-- s j ;;
    if Qle_bool lo q && Qle_bool q hi then Ok q else invalid.

(** [z.array(s)] *)
Definition array {A} (s : schema A) : schema (list A) :=
  fun j => match j with Json.Arr l => emap s l | _ => invalid end.

(** [z.object({...})] : [fields] reads the keys of the object. *)
Definition object {A} (fields : list (string * Json.value) -> Exc A) : schema A :=
  fun j => match j with Json.Obj members => fields members | _ => invalid end.

(** A key of an object whose schema is [s] *)
Definition required {A} (s : schema A) (key : string)
    (members : list (string * Json.value)) : Exc A :=
  match Json.lookup key members with
  | Some j => s j
  | None => invalid
  end.

(** A key of an object whose schema is [s.optional()] *)
Definition optional {A} (s : schema A) (key : string)
    (members : list (string * Json.value)) : Exc (option A) :=
  match Json.lookup key members with
  | Some j => a <-- s j ;; Ok (Some a)
  | None => Ok None
  end.

(** A key of an object whose schema is [s.default(d)] *)
Definition default {A} (s : schema A) (d : A) (key : string)
    (members : list (string * Json.value)) : Exc A :=
  match Json.lookup key members with
  | Some j => s j
  | None => Ok d
  end.

End Zod.

Module Schema.

Import Zod.

Definition Address : schema Address.t :=
  object (fun o =>
    street <-- optional string_ "street" o ;;
    city <-- optional string_ "city" o ;;
    state <-- optional string_ "state" o ;;
    postalCode <-- optional string_ "postalCode" o ;;
    country <-- optional string_ "country" o ;;
    googleMapsUrl <-- optional url "googleMapsUrl" o ;;
    Ok (Address.mk street city state postalCode country googleMapsUrl)).

Definition Hour : schema Hour.t :=
  object (fun o =>
    day <-- required string_ "day" o ;;
    open <-- required string_ "open" o ;;
    close <-- required string_ "close" o ;;
    Ok (Hour.mk day open close)).

Definition Hours : schema (list Hour.t) := array Hour.

(** [z.enum(["vegan","veg","gf","spicy","halal","kosher"])] *)
Definition DietaryTag : schema Dietary :=
  fun j =>
    s <-- string_ j ;;
    if String.eqb s "vegan" then Ok vegan
    else if String.eqb s "veg" then Ok veg
    else if String.eqb s "gf" then Ok gf
    else if String.eqb s "spicy" then Ok spicy
    else if String.eqb s "halal" then Ok halal
    else if String.eqb s "kosher" then Ok kosher
    else invalid.

Definition MenuItem : schema MenuItem.t :=
  object (fun o =>
    name <-- required string_ "name" o ;;
    description <-- optional string_ "description" o ;;
    price <-- optional string_ "price" o ;;
    image <-- optional string_ "image" o ;;
    dietary <-- optional (array DietaryTag) "dietary" o ;;
    Ok (MenuItem.mk name description price image dietary)).

Definition MenuCategory : schema MenuCategory.t :=
  object (fun o =>
    name <-- required string_ "name" o ;;
    items <-- required (array MenuItem) "items" o ;;
    Ok (MenuCategory.mk name items)).

Definition Menu : schema (list MenuCategory.t) := array MenuCategory.

Definition Review : schema Review.t :=
  object (fun o =>
    source <-- optional string_ "source" o ;;
    text <-- required string_ "text" o ;;
    rating <-- optional (min_max 1 5 number) "rating" o ;;
    author <-- optional string_ "author" o ;;
    Ok (Review.mk source text rating author)).

Definition Social : schema Social.t :=
  object (fun o =>
    instagram <-- optional url "instagram" o ;;
    facebook <-- optional url "facebook" o ;;
    tiktok <-- optional url "tiktok" o ;;
    x <-- optional url "x" o ;;
    Ok (Social.mk instagram facebook tiktok x)).

Definition SiteSection : schema SiteSection.t :=
  object (fun o =>
    title <-- required string_ "title" o ;;
    body <-- required string_ "body" o ;;
    image <-- optional string_ "image" o ;;
    Ok (SiteSection.mk title body image)).

Definition Theme : schema Theme.t :=
  object (fun o =>
    primary <-- default string_ "#b91c1c" "primary" o ;;
    accent <-- default string_ "#111827" "accent" o ;;
    heroOverlay <-- default string_ "rgba(0,0,0,0.35)" "heroOverlay" o ;;
    Ok (Theme.mk primary accent heroOverlay)).

(** The key [theme] with [.default({})] : an absent theme is validated as
    the empty object, which yields the three default colours. *)
Definition theme_key (o : list (string * Json.value)) : Exc Theme.t :=
  match Json.lookup "theme" o with
  | Some j => Theme j
  | None => Theme (Json.Obj [])
  end.

(** [RestaurantSite.parse] *)
Definition RestaurantSite : schema RestaurantSite.t :=
  object (fun o =>
    slug <-- required string_ "slug" o ;;
    name <-- required string_ "name" o ;;
    tagline <-- optional string_ "tagline" o ;;
    heroImage <-- optional string_ "heroImage" o ;;
    logo <-- optional string_ "logo" o ;;
    phone <-- optional string_ "phone" o ;;
    email <-- optional string_ "email" o ;;
    address <-- optional Address "address" o ;;
    hours <-- optional Hours "hours" o ;;
    reservationUrl <-- optional url "reservationUrl" o ;;
    orderOnlineUrl <-- optional url "orderOnlineUrl" o ;;
    social <-- optional Social "social" o ;;
    sections <-- optional (array SiteSection) "sections" o ;;
    reviews <-- optional (array Review) "reviews" o ;;
    menu <-- optional Menu "menu" o ;;
    images <-- optional (array string_) "images" o ;;
    theme <-- theme_key o ;;
    sourceUrl <-- required url "sourceUrl" o ;;
    lastScrapedAt <-- required string_ "lastScrapedAt" o ;;
    Ok (RestaurantSite.mk slug name tagline heroImage logo phone email address hours
          reservationUrl orderOnlineUrl social sections reviews menu images theme
          sourceUrl lastScrapedAt)).

End Schema.

(* ===================================================================== *)
(** ** lib/rewrite.ts                                                      *)
(* ===================================================================== *)

Module Rewrite.

(** The body of the [try] block. *)
Definition ask_model (w : World) (raw : RestaurantSite.t) : M RestaurantSite.t :=
  emit ChatCompletionRequest ;;
  response <- match chat_completion w raw with
              | ApiRejects e => throw e
              | ApiResolves content => ret content
              end ;;
  content <- match response with
             | Some c => if Js.truthy c then ret c
                         else throw (JsError "No content returned from OpenAI")
             | None => throw (JsError "No content returned from OpenAI")
             end ;;
  cleaned <- lift (Json.parse content) ;;
  validated <- lift (Schema.RestaurantSite cleaned) ;;
  emit (ConsoleLog "Content successfully rewritten and validated") ;;
  ret validated.

Definition rewriteContent (w : World) (raw : RestaurantSite.t) : M RestaurantSite.t :=
  if negb (Js.truthy_opt (env_OPENAI_API_KEY w)) then
    emit (ConsoleLog "No OpenAI API key found, skipping content rewrite") ;;
    ret raw
  else
    try_catch (ask_model w raw)
      (fun error =>
         emit (ConsoleError "Content rewrite failed:") ;;
         emit (ConsoleLog "Falling back to original content") ;;
         ret raw).

End Rewrite.

(* ===================================================================== *)
(** ** lib/images.ts                                                       *)
(* ===================================================================== *)

Module Images.

(** [images.ts] has its own copy of [slugify], the same text as in
    [slug.ts]. *)
Definition slugify (text : string) : string :=
  Slug.strip_hyphens
    (Slug.hyphenate_runs false (Slug.remove_special (Js.toLowerCase text))).

(** [path.basename(p)] : the last segment of the path, trailing slashes
    apart. *)
Definition basename (p : string) : string :=
  let not_slash := fun c => negb (Ascii.eqb c "/") in
  Js.rev (Js.take_while not_slash
            (Js.drop_while (fun c => Ascii.eqb c "/") (Js.rev p))).

Definition local_path (slug finalFilename : string) : string :=
  "/_imports/" ++ slug ++ "/" ++ finalFilename.

(** The body of the [try] block of [downloadImage]. *)
Definition download (w : World) (url slug : string) (filename : option string)
    : M (option string) :=
  let dir := cwd w ++ "/public/_imports/" ++ slug in
  (if fs_exists w dir then ret tt
   else emit (FsMkdir dir) ;;
        if fs_mkdir_ok w dir then ret tt else throw (IoError "mkdir")) ;;
  finalFilename <-
    (if Js.truthy_opt filename then ret (Js.or_default filename EmptyString)
     else
       urlObj <- lift (Url.parse url) ;;
       ret (Js.or_default (Some (basename (Url.pathname urlObj))) "image.jpg")) ;;
  let filePath := dir ++ "/" ++ finalFilename in
  emit (FetchRequest url) ;;
  match fetch w url with
  | FetchRejects e => throw e
  | FetchResponse ok status statusText body_readable =>
      if negb ok then throw (JsError ("HTTP " ++ status ++ ": " ++ statusText))
      else if negb body_readable then throw (IoError "arrayBuffer")
      else
        emit (FsWrite filePath) ;;
        (if fs_write_ok w filePath then ret tt else throw (IoError "writeFile")) ;;
        ret (Some (local_path slug finalFilename))
  end.

Definition downloadImage (w : World) (url slug : string) (filename : option string)
    : M (option string) :=
  try_catch (download w url slug filename)
    (fun error =>
       emit (ConsoleError ("Failed to download image " ++ url ++ ":")) ;;
       ret None).

(** A reference is remote when it is set, not empty and does not start
    with a slash: the test [x && !x.startsWith('/')]. *)
Definition is_remote (ref : option string) : bool :=
  match ref with
  | Some u => Js.truthy u && negb (Js.startsWith "/" u)
  | None => false
  end.

(** The block that occurs four times in [downloadAllImages]:
    [if (x && !x.startsWith('/')) { const localPath = await
    downloadImage(x, slug, filename); if (localPath) x = localPath; }].
    It yields the reference as it is after the block. *)
Definition localize (w : World) (slug : string) (ref : option string)
    (filename : string) : M (option string) :=
  match ref with
  | Some u =>
      if is_remote ref then
        localPath <- downloadImage w u slug (Some filename) ;;
        ret (if Js.truthy_opt localPath then localPath else ref)
      else ret ref
  | None => ret ref
  end.

Definition localize_item (w : World) (slug : string) (item : MenuItem.t) : M MenuItem.t :=
  image <- localize w slug (MenuItem.image item) (slugify (MenuItem.name item) ++ ".jpg") ;;
  ret (MenuItem.mk (MenuItem.name item) (MenuItem.description item)
         (MenuItem.price item) image (MenuItem.dietary item)).

Definition localize_category (w : World) (slug : string) (category : MenuCategory.t)
    : M MenuCategory.t :=
  items <- for_each (localize_item w slug) (MenuCategory.items category) ;;
  ret (MenuCategory.mk (MenuCategory.name category) items).

Definition localize_section (w : World) (slug : string) (section : SiteSection.t)
    : M SiteSection.t :=
  image <- localize w slug (SiteSection.image section)
             (slugify (SiteSection.title section) ++ ".jpg") ;;
  ret (SiteSection.mk (SiteSection.title section) (SiteSection.body section) image).

(** [if (x) { for (const e of x) ... }] on an optional array. *)
Definition for_each_opt {A} (body : A -> M A) (o : option (list A)) : M (option (list A)) :=
  match o with
  | Some l => l' <- for_each body l ;; ret (Some l')
  | None => ret None
  end.

(** The record returned is a shallow copy of [site] with [heroImage] and
    [logo] reassigned; menu items and sections are updated in place, so the
    copy and [site] share them as they are after the loops. *)
Definition downloadAllImages (w : World) (site : RestaurantSite.t) (slug : string)
    : M RestaurantSite.t :=
  heroImage <- localize w slug (RestaurantSite.heroImage site) "hero.jpg" ;;
  logo <- localize w slug (RestaurantSite.logo site) "logo.jpg" ;;
  menu <- for_each_opt (localize_category w slug) (RestaurantSite.menu site) ;;
  sections <- for_each_opt (localize_section w slug) (RestaurantSite.sections site) ;;
  ret (RestaurantSite.mk
         (RestaurantSite.slug site)
         (RestaurantSite.name site)
         (RestaurantSite.tagline site)
         heroImage
         logo
         (RestaurantSite.phone site)
         (RestaurantSite.email site)
         (RestaurantSite.address site)
         (RestaurantSite.hours site)
         (RestaurantSite.reservationUrl site)
         (RestaurantSite.orderOnlineUrl site)
         (RestaurantSite.social site)
         sections
         (RestaurantSite.reviews site)
         menu
         (RestaurantSite.images site)
         (RestaurantSite.theme site)
         (RestaurantSite.sourceUrl site)
         (RestaurantSite.lastScrapedAt site)).

End Images.

(* ===================================================================== *)
(** ** scripts/scrape.ts : the stages in sequence                          *)
(* ===================================================================== *)

Module Pipeline.

(** Steps 2 to 4 of [main], from the scraped record to the record that is
    written to [content/<slug>.json].  The progress lines that [main]
    prints between the steps are left out. *)
Definition build (w : World) (useAI : bool) (scrapedData : ScrapedData.t) (url : string)
    : M RestaurantSite.t :=
  normalizedData <- Normalize.normalizeRestaurantData w scrapedData url ;;
  finalData <- (if useAI then Rewrite.rewriteContent w normalizedData
                else ret normalizedData) ;;
  slug <- Slug.createSlugFromUrl url ;;
  Images.downloadAllImages w finalData slug.

End Pipeline.

(* ===================================================================== *)
(** ** lib/scrape.ts : the other extractors                                *)
(* ===================================================================== *)

(** The extractors query the parsed page through cheerio.  Each one is
    given here what its queries return: the matched elements in document
    order, with the texts and attributes the extractor reads from them. *)
Module Extract.

(** [[...new Set(images)]] : the first occurrence of each string, in
    order. *)
Fixpoint unique (seen : list string) (l : list string) : list string :=
  match l with
  | [] => []
  | x :: l' =>
      if existsb (String.eqb x) seen then unique seen l'
      else x :: unique (x :: seen) l'
  end.

(** [srcs] : [$(el).attr('src')] of every [img] of the page. *)
Definition extractImages (srcs : list (option string)) : list string :=
  unique []
    (flat_map (fun src =>
                 match src with
                 | Some s => if Js.truthy s && negb (Js.startsWith "data:" s) then [s] else []
                 | None => []
                 end) srcs).

Record SectionElement : Type := {
  sec_heading : string;       (* $section.find('h1, h2, h3').first().text() *)
  sec_text : string;          (* $section.text() *)
  sec_img : option string     (* $section.find('img').first().attr('src') *)
}.

Definition sectionSelectors : list string :=
  ["section"; ".section"; ".content"; ".about"; ".story"; ".history"].

Definition section_of_element (el : SectionElement) : list SiteSection.t :=
  let title := Js.trim (sec_heading el) in
  let body := Js.trim (sec_text el) in
  let image := sec_img el in
  if Js.truthy title && Js.truthy body && (50 <? String.length body)%nat then
    [SiteSection.mk title body image]
  else [].

Definition extractSections (doc : string -> list SectionElement) : list SiteSection.t :=
  flat_map (fun selector => flat_map section_of_element (doc selector)) sectionSelectors.

Record ItemElement : Type := {
  item_name : string;         (* $item.find('.name, .item-name, strong').first().text() *)
  item_description : string;  (* $item.find('.description, .item-desc').first().text() *)
  item_price : string;        (* $item.find('.price, .item-price').first().text() *)
  item_img : option string    (* $item.find('img').first().attr('src') *)
}.

Record MenuElement : Type := {
  menu_heading : string;            (* $section.find('h2, h3, .category-name').first().text() *)
  menu_items : list ItemElement     (* $section.find('.menu-item, .item, li') *)
}.

Definition menuSelectors : list string :=
  [".menu"; "#menu"; ".menu-section"; ".menu-category"].

Definition item_of_element (el : ItemElement) : list ScrapedItem.t :=
  let name := Js.trim (item_name el) in
  let description := Js.trim (item_description el) in
  let price := Js.trim (item_price el) in
  let image := item_img el in
  if Js.truthy name then [ScrapedItem.mk name (Some description) (Some price) image]
  else [].

Definition category_of_element (el : MenuElement) : list ScrapedCategory.t :=
  let categoryName := Js.trim (menu_heading el) in
  if Js.truthy categoryName then
    let items := flat_map item_of_element (menu_items el) in
    if (0 <? length items)%nat then [ScrapedCategory.mk categoryName items] else []
  else [].

Definition extractMenu (doc : string -> list MenuElement) : list ScrapedCategory.t :=
  flat_map (fun selector => flat_map category_of_element (doc selector)) menuSelectors.

(** One loop of [extractSocial]: every anchor with an [href] overwrites
    the field. *)
Definition last_href (hrefs : list (option string)) : option string :=
  fold_left (fun field href => if Js.truthy_opt href then href else field) hrefs None.

(** The [href] attributes of the anchors matched by the four selectors. *)
Record SocialAnchors : Type := {
  instagram_hrefs : list (option string);   (* a[href*="instagram.com"] *)
  facebook_hrefs : list (option string);    (* a[href*="facebook.com"] *)
  tiktok_hrefs : list (option string);      (* a[href*="tiktok.com"] *)
  x_hrefs : list (option string)            (* a[href*="twitter.com"], a[href*="x.com"] *)
}.

Definition extractSocial (a : SocialAnchors) : Social.t :=
  Social.mk (last_href (instagram_hrefs a)) (last_href (facebook_hrefs a))
    (last_href (tiktok_hrefs a)) (last_href (x_hrefs a)).

(** [data['@type'] === 'Restaurant' || data['@type'] === 'LocalBusiness'].
    Reading a key of [null] throws; of another value that is no object it
    yields [undefined]. *)
Definition business_type (data : Json.value) : Exc bool :=
  match data with
  | Json.Null => Throw (TypeError "Cannot read properties of null")
  | Json.Obj o =>
      match Json.lookup "@type" o with
      | Some (Json.Str t) => Ok (String.eqb t "Restaurant" || String.eqb t "LocalBusiness")
      | _ => Ok false
      end
  | _ => Ok false
  end.

(** [scripts] : [$(script).html()] of every JSON-LD script of the page.
    An exception inside the [try] goes on to the next script. *)
Fixpoint extractJsonLd (scripts : list (option string)) : option Json.value :=
  match scripts with
  | [] => None
  | content :: rest =>
      match content with
      | Some c =>
          if Js.truthy c then
            match ebind (Json.parse c) (fun data =>
                    ebind (business_type data) (fun b => Ok (b, data))) with
            | Ok (true, data) => Some data
            | Ok (false, _) => extractJsonLd rest
            | Throw _ => extractJsonLd rest
            end
          else extractJsonLd rest
      | None => extractJsonLd rest
      end
  end.

Record ImgElement : Type := {
  img_src : option string;      (* $img.attr('src') *)
  img_width : option string;    (* $img.attr('width') *)
  img_height : option string    (* $img.attr('height') *)
}.

Definition is_hex (c : ascii) : bool :=
  match Json.hex_digit c with Some _ => true | None => false end.

Fixpoint digits_value (radix : Z) (acc : Z) (digits : string) : Z :=
  match digits with
  | EmptyString => acc
  | String c d' =>
      digits_value radix
        (acc * radix + match Json.hex_digit c with Some n => Z.of_nat n | None => 0 end) d'
  end.

(** The numbers that [parseInt] and [*] produce here: [NaN], an integer
    that is a binary64 value, or an infinity.  The two zeros are one
    [Fin 0]: the code multiplies and compares, which does not tell them
    apart. *)
Inductive number : Type :=
| NaN
| Fin (n : Z)
| Inf (negative : bool).

(** The binary64 value nearest to the integer [n], ties to the even
    significand; beyond the largest finite value, an infinity. *)
Definition round (n : Z) : number :=
  let a := Z.abs n in
  if (a <? 2 ^ 53)%Z then Fin n
  else
    let e := (Z.log2 a - 52)%Z in
    let q := (a / 2 ^ e)%Z in
    let r := (a mod 2 ^ e)%Z in
    let q' := if ((2 ^ e <? 2 * r) || ((2 ^ e =? 2 * r) && Z.odd q))%Z
              then (q + 1)%Z else q in
    let v := (q' * 2 ^ e)%Z in
    if (2 ^ 1024 <=? v)%Z then Inf (n <? 0)%Z
    else Fin (if (n <? 0)%Z then (- v)%Z else v).

(** [a * b]. *)
Definition mul (a b : number) : number :=
  match a, b with
  | NaN, _ | _, NaN => NaN
  | Fin x, Fin y => round (x * y)
  | Inf s, Fin y | Fin y, Inf s =>
      if (y =? 0)%Z then NaN else Inf (xorb s (y <? 0)%Z)
  | Inf s, Inf t => Inf (xorb s t)
  end.

(** [a > b]. *)
Definition gt (a b : number) : bool :=
  match a, b with
  | NaN, _ | _, NaN => false
  | Fin x, Fin y => (y <? x)%Z
  | Inf s, Fin _ => negb s
  | Fin _, Inf t => t
  | Inf s, Inf t => negb s && t
  end.

(** [parseInt(s)] with no radix: leading white space, a sign, [0x] or [0X]
    for base 16, then the longest run of digits, whose value is rounded to
    a binary64 value. *)
Definition parseInt (s : string) : number :=
  let s1 := Js.drop_while Js.is_space s in
  let (negative, s2) :=
    match s1 with
    | String "-" r => (true, r)
    | String "+" r => (false, r)
    | _ => (false, s1)
    end in
  let (radix, s3) :=
    match s2 with
    | String "0" (String "x" r) => (16%Z, r)
    | String "0" (String "X" r) => (16%Z, r)
    | _ => (10%Z, s2)
    end in
  let digits := Js.take_while (if (radix =? 16)%Z then is_hex else Js.is_digit) s3 in
  match digits with
  | EmptyString => NaN
  | _ => let n := digits_value radix 0 digits in
         round (if negative then (- n)%Z else n)
  end.

(** [width * height]. *)
Definition area (img : ImgElement) : number :=
  mul (parseInt (Js.or_default (img_width img) "0"))
      (parseInt (Js.or_default (img_height img) "0")).

(** One iteration of the loop over the images: the pair
    [(largestImage, largestSize)] after it. *)
Definition hero_step (largest : string * number) (img : ImgElement) : string * number :=
  match img_src img with
  | Some src =>
      let size := area img in
      if Js.truthy src && gt size (snd largest) && gt size (Fin 10000) then (src, size)
      else largest
  | None => largest
  end.

(** [og_image] : [og.image]; [images] : [$('img').toArray()]. *)
Definition extractHeroImage (og_image : option string) (images : list ImgElement)
    : option string :=
  if Js.truthy_opt og_image then og_image
  else
    let largestImage := fst (fold_left hero_step images (EmptyString, Fin 0)) in
    if Js.truthy largestImage then Some largestImage else None.

End Extract.

(* ===================================================================== *)
(** * Vocabulary of the properties                                         *)
(* ===================================================================== *)

(** Test documents are written with apostrophes where JSON has quotation
    marks. *)
Definition json_text (s : string) : string :=
  Js.map_string (fun c => if Ascii.eqb c "'" then Json.quote else c) s.

(** The line feed, as a string. *)
Definition LF : string := String "010"%char EmptyString.

(** Two records that agree on every field other than [lastScrapedAt]. *)
Definition same_but_lastScrapedAt (a b : RestaurantSite.t) : Prop :=
  RestaurantSite.slug a = RestaurantSite.slug b /\
  RestaurantSite.name a = RestaurantSite.name b /\
  RestaurantSite.tagline a = RestaurantSite.tagline b /\
  RestaurantSite.heroImage a = RestaurantSite.heroImage b /\
  RestaurantSite.logo a = RestaurantSite.logo b /\
  RestaurantSite.phone a = RestaurantSite.phone b /\
  RestaurantSite.email a = RestaurantSite.email b /\
  RestaurantSite.address a = RestaurantSite.address b /\
  RestaurantSite.hours a = RestaurantSite.hours b /\
  RestaurantSite.reservationUrl a = RestaurantSite.reservationUrl b /\
  RestaurantSite.orderOnlineUrl a = RestaurantSite.orderOnlineUrl b /\
  RestaurantSite.social a = RestaurantSite.social b /\
  RestaurantSite.sections a = RestaurantSite.sections b /\
  RestaurantSite.reviews a = RestaurantSite.reviews b /\
  RestaurantSite.menu a = RestaurantSite.menu b /\
  RestaurantSite.images a = RestaurantSite.images b /\
  RestaurantSite.theme a = RestaurantSite.theme b /\
  RestaurantSite.sourceUrl a = RestaurantSite.sourceUrl b.

(** A scraped record with every optional field absent and every list
    empty. *)
Definition empty_scraped : ScrapedData.t :=
  ScrapedData.mk None None None None None None None None [] [] []
    (Social.mk None None None None) [].

(** A platform with no credential, an unreachable network and a read-only
    disk. *)
Definition offline_world : World := {|
  now_iso := "2025-01-01T00:00:00.000Z";
  env_OPENAI_API_KEY := None;
  chat_completion := fun _ => ApiRejects (IoError "Connection error.");
  cwd := "/app";
  fs_exists := fun _ => false;
  fs_mkdir_ok := fun _ => false;
  fs_write_ok := fun _ => false;
  fetch := fun _ => FetchRejects (TypeError "fetch failed")
|}.

(** The Rewriter has no use for the reply of the model: the call failed,
    there is no content, the content is not JSON, or the JSON value is
    rejected by the schema. *)
Definition response_unusable (reply : ApiReply) : Prop :=
  match reply with
  | ApiRejects _ => True
  | ApiResolves None => True
  | ApiResolves (Some content) =>
      content = EmptyString \/
      (exists e, Json.parse content = Throw e) \/
      (exists cleaned e, Json.parse content = Ok cleaned /\
                         Schema.RestaurantSite cleaned = Throw e)
  end.

(** The Rewriter accepts the reply and obtains [validated] from it. *)
Definition response_accepted (reply : ApiReply) (validated : RestaurantSite.t) : Prop :=
  exists content cleaned,
    reply = ApiResolves (Some content) /\
    Js.truthy content = true /\
    Json.parse content = Ok cleaned /\
    Schema.RestaurantSite cleaned = Ok validated.

(** A record as the normalizer builds it for [https://example.com] from an
    empty scrape. *)
Definition example_site : RestaurantSite.t :=
  RestaurantSite.mk "examplecom" "Restaurant" None None None None None None None None None
    (Some (Social.mk None None None None)) (Some []) (Some []) (Some []) (Some [])
    Normalize.default_theme "https://example.com" "2025-01-01T00:00:00.000Z".

(** A reply of the model that is valid against the schema and names
    another site. *)
Definition rival_reply : string :=
  json_text ("{'slug':'rival-bistro','name':'Rival Bistro'," ++
             "'theme':{'primary':'#000000'}," ++
             "'sourceUrl':'https://rival.example/'," ++
             "'lastScrapedAt':'1999-12-31T23:59:59.000Z'}").

(** The record that the schema makes of [rival_reply]. *)
Definition rival_site : RestaurantSite.t :=
  RestaurantSite.mk "rival-bistro" "Rival Bistro" None None None None None None None None None
    None None None None None
    (Theme.mk "#000000" "#111827" "rgba(0,0,0,0.35)")
    "https://rival.example/" "1999-12-31T23:59:59.000Z".

(** A platform with a credential, whose model answers every request with
    [reply]. *)
Definition world_with_model (reply : ApiReply) : World := {|
  now_iso := "2025-01-01T00:00:00.000Z";
  env_OPENAI_API_KEY := Some "sk-test";
  chat_completion := fun _ => reply;
  cwd := "/app";
  fs_exists := fun _ => true;
  fs_mkdir_ok := fun _ => true;
  fs_write_ok := fun _ => true;
  fetch := fun _ => FetchResponse true "200" "OK" true
|}.

(** The directory [downloadImage] writes to. *)
Definition imports_dir (w : World) (slug : string) : string :=
  cwd w ++ "/public/_imports/" ++ slug.

(** The download of [url] fails: the request is rejected (network error)
    or the response is not a success. *)
Definition fetch_fails (w : World) (url : string) : Prop :=
  match fetch w url with
  | FetchRejects _ => True
  | FetchResponse ok _ _ _ => ok = false
  end.

(** The download of [url] to [filename] succeeds: the directory is there
    or can be made, the response is a success whose body can be read, and
    the file can be written. *)
Definition download_succeeds (w : World) (slug url filename : string) : Prop :=
  (fs_exists w (imports_dir w slug) || fs_mkdir_ok w (imports_dir w slug) = true) /\
  (exists status statusText, fetch w url = FetchResponse true status statusText true) /\
  fs_write_ok w (imports_dir w slug ++ "/" ++ filename) = true.

(** How one image reference stands after localization, given how it stood
    before. *)
Definition localized (w : World) (slug filename : string)
    (before after : option string) : Prop :=
  (Images.is_remote before = false -> after = before) /\
  (forall url, before = Some url -> Images.is_remote before = true ->
     fetch_fails w url -> after = Some url) /\
  (forall url, before = Some url -> Images.is_remote before = true ->
     download_succeeds w slug url filename ->
     after = Some (Images.local_path slug filename)) /\
  (after = before \/ after = Some (Images.local_path slug filename)).

(** An image reference that has to be fetched: it is set, it is not the
    empty string and its first character is not a slash. *)
Definition needs_download (ref : option string) : bool :=
  match ref with
  | Some (String c _) => negb (Ascii.eqb c "/")
  | Some EmptyString => false
  | None => false
  end.

(** How one image reference must stand after localization, given how it
    stood before: untouched when it needs no download or its download
    fails, and the path [/_imports/<slug>/<filename>] when its download
    succeeds. *)
Definition settled (w : World) (slug filename : string)
    (before after : option string) : Prop :=
  (needs_download before = false -> after = before) /\
  (forall url, before = Some url -> needs_download before = true ->
     fetch_fails w url -> after = Some url) /\
  (forall url, before = Some url -> needs_download before = true ->
     download_succeeds w slug url filename ->
     after = Some ("/_imports/" ++ slug ++ "/" ++ filename)).

(** Two optional arrays: both absent, or both present and related. *)
Definition opt_rel {A} (R : list A -> list A -> Prop) (o o' : option (list A)) : Prop :=
  match o, o' with
  | Some l, Some l' => R l l'
  | None, None => True
  | _, _ => False
  end.

(** A menu item after localization: its image is localized under the file
    name made from its name, the rest is as before. *)
Definition item_localized (w : World) (slug : string) (i i' : MenuItem.t) : Prop :=
  MenuItem.name i' = MenuItem.name i /\
  MenuItem.description i' = MenuItem.description i /\
  MenuItem.price i' = MenuItem.price i /\
  MenuItem.dietary i' = MenuItem.dietary i /\
  localized w slug (Images.slugify (MenuItem.name i) ++ ".jpg")
    (MenuItem.image i) (MenuItem.image i').

(** A menu category after localization: the same name, the items
    localized one by one. *)
Definition category_localized (w : World) (slug : string) (c c' : MenuCategory.t) : Prop :=
  MenuCategory.name c' = MenuCategory.name c /\
  Forall2 (item_localized w slug) (MenuCategory.items c) (MenuCategory.items c').

(** A section after localization. *)
Definition section_localized (w : World) (slug : string) (s s' : SiteSection.t) : Prop :=
  SiteSection.title s' = SiteSection.title s /\
  SiteSection.body s' = SiteSection.body s /\
  localized w slug (Images.slugify (SiteSection.title s) ++ ".jpg")
    (SiteSection.image s) (SiteSection.image s').

(** The scenario of the specification: five remote images, of which the
    second menu item's answers 404. *)
Definition five_image_site : RestaurantSite.t :=
  RestaurantSite.mk "examplecom" "Example" None
    (Some "https://cdn.example.com/hero.png")
    (Some "https://cdn.example.com/logo.png")
    None None None None None None None
    (Some [SiteSection.mk "Our Story" "Since 1938." (Some "https://cdn.example.com/story.png")])
    None
    (Some [MenuCategory.mk "Noodles"
             [MenuItem.mk "Beef Chow Mein" None (Some "$12") (Some "https://cdn.example.com/a.png") None;
              MenuItem.mk "Lo Mein" None (Some "$11") (Some "https://cdn.example.com/b.png") None]])
    None Normalize.default_theme "https://example.com" "2025-01-01T00:00:00.000Z".

(** A platform whose network answers 404 for one image and 200 for every
    other, and whose disk accepts every write. *)
Definition one_missing_world : World := {|
  now_iso := "2025-01-01T00:00:00.000Z";
  env_OPENAI_API_KEY := None;
  chat_completion := fun _ => ApiRejects (IoError "Connection error.");
  cwd := "/app";
  fs_exists := fun _ => false;
  fs_mkdir_ok := fun _ => true;
  fs_write_ok := fun _ => true;
  fetch := fun url =>
    if String.eqb url "https://cdn.example.com/b.png"
    then FetchResponse false "404" "Not Found" true
    else FetchResponse true "200" "OK" true
|}.

(** An image reference that starts with a slash, or is absent, is the same
    after the call. *)
Definition local_kept (before after : option string) : Prop :=
  (forall path, before = Some path -> Js.startsWith "/" path = true -> after = Some path) /\
  (before = None -> after = None).

(** A page with one review, marked 10 out of 10:
    [<div class="review">Best dumplings in Chinatown, hands down.
    <span class="stars">10/10</span></div>]. *)
Definition ten_out_of_ten_page : Scrape.Document :=
  fun selector =>
    if String.eqb selector ".review" then
      [ {| Scrape.el_text := "Best dumplings in Chinatown, hands down. 10/10";
           Scrape.el_rating_text := "10/10";
           Scrape.el_author_text := EmptyString |} ]
    else [].

(** The scraped record of that page, as far as reviews go. *)
Definition ten_out_of_ten_scraped : ScrapedData.t :=
  ScrapedData.mk None None None None None None None None [] [] []
    (Social.mk None None None None)
    (Scrape.extractReviews ten_out_of_ten_page).

(* ===================================================================== *)
(** * Vocabulary of the further properties                                 *)
(* ===================================================================== *)

(** ** Strings and slugs *)

(** Every character of the string satisfies [p]. *)
Fixpoint all_of (p : ascii -> bool) (s : string) : bool :=
  match s with
  | EmptyString => true
  | String c s' => p c && all_of p s'
  end.

(** [s] without the characters at its end that satisfy [p], by recursion
    from the front. *)
Fixpoint strip_end (p : ascii -> bool) (s : string) : string :=
  match s with
  | EmptyString => EmptyString
  | String c s' =>
      match strip_end p s' with
      | EmptyString => if p c then EmptyString else String c EmptyString
      | t => String c t
      end
  end.

(** A character of a slug: a lower-case letter, a digit or a hyphen. *)
Definition slug_char (c : ascii) : bool :=
  Js.is_lower c || Js.is_digit c || Slug.is_hyphen c.

Definition starts_with_hyphen (s : string) : bool :=
  match s with
  | String c _ => Slug.is_hyphen c
  | EmptyString => false
  end.

Fixpoint ends_with_hyphen (s : string) : bool :=
  match s with
  | EmptyString => false
  | String c EmptyString => Slug.is_hyphen c
  | String _ s' => ends_with_hyphen s'
  end.

(** No two hyphens in a row; [prev] tells that the character before [s]
    is a hyphen. *)
Fixpoint no_adjacent_hyphens (prev : bool) (s : string) : bool :=
  match s with
  | EmptyString => true
  | String c s' =>
      if Slug.is_hyphen c then negb prev && no_adjacent_hyphens true s'
      else no_adjacent_hyphens false s'
  end.

(** The shape of a slug: lower-case letters, digits and single hyphens,
    the hyphens only between other characters. *)
Definition is_slug (s : string) : bool :=
  all_of slug_char s && negb (starts_with_hyphen s) && negb (ends_with_hyphen s)
  && no_adjacent_hyphens false s.

(** ** What a pattern matches *)

Module RegexSemantics.

Import Regex.

(** What it means for a pattern to match at the front of [s], leaving
    [s'], and taking the captures from [caps] to [caps']. *)
Inductive matches : Regex.t -> string -> captures -> string -> captures -> Prop :=
| m_eps : forall s caps, matches Eps s caps s caps
| m_char : forall p c s caps, p c = true -> matches (Char p) (String c s) caps s caps
| m_lit : forall l s s' caps, strip_prefix_ci l s = Some s' -> matches (Lit l) s caps s' caps
| m_seq : forall a b s caps s1 caps1 s2 caps2,
    matches a s caps s1 caps1 -> matches b s1 caps1 s2 caps2 ->
    matches (Seq a b) s caps s2 caps2
| m_alt_l : forall a b s caps s' caps',
    matches a s caps s' caps' -> matches (Alt a b) s caps s' caps'
| m_alt_r : forall a b s caps s' caps',
    matches b s caps s' caps' -> matches (Alt a b) s caps s' caps'
| m_opt_some : forall a s caps s' caps',
    matches a s caps s' caps' -> matches (Opt a) s caps s' caps'
| m_opt_none : forall a s caps, matches (Opt a) s caps s caps
| m_star_more : forall a s caps s1 caps1 s2 caps2,
    matches a s caps s1 caps1 -> matches (Star a) s1 caps1 s2 caps2 ->
    matches (Star a) s caps s2 caps2
| m_star_done : forall a s caps, matches (Star a) s caps s caps
| m_group : forall n a s caps s' caps',
    matches a s caps s' caps' ->
    matches (Group n a) s caps s' ((n, consumed s s') :: caps').

(** A pattern without capture groups. *)
Fixpoint groupless (r : Regex.t) : bool :=
  match r with
  | Eps | Char _ | Lit _ => true
  | Seq a b | Alt a b => groupless a && groupless b
  | Star a | Opt a => groupless a
  | Group _ _ => false
  end.

End RegexSemantics.

(** A string that starts with a character other than white space. *)
Definition solid (s : string) : bool :=
  match s with
  | String c _ => negb (Js.is_space c)
  | EmptyString => false
  end.

(** The day labels that [parseHours] can emit. *)
Definition day_labels : list string :=
  ["Monday"; "Tuesday"; "Wednesday"; "Thursday"; "Friday"; "Saturday"; "Sunday";
   "Mon"; "Tue"; "Wed"; "Thu"; "Fri"; "Sat"; "Sun"].

(** An entry as [parseHours] emits it: a known day label, and an open and
    a close time that are not empty. *)
Definition hour_well_formed (h : Hour.t) : Prop :=
  In (Hour.day h) day_labels /\ Hour.open h <> "" /\ Hour.close h <> "".

Definition not_colon (c : ascii) : bool := negb (Ascii.eqb c ":").

(** ** The rewriter and the schema *)

(** A rating, when there is one, lies between 1 and 5. *)
Definition rating_in_bounds (r : Review.t) : Prop :=
  forall q, Review.rating r = Some q -> (1 <= q /\ q <= 5)%Q.

(** A JSON value that has the four keys the schema requires. *)
Definition has_required_keys (cleaned : Json.value) : Prop :=
  exists o, cleaned = Json.Obj o /\
    (exists s, Json.lookup "slug" o = Some (Json.Str s)) /\
    (exists s, Json.lookup "name" o = Some (Json.Str s)) /\
    (exists s, Json.lookup "sourceUrl" o = Some (Json.Str s)) /\
    (exists s, Json.lookup "lastScrapedAt" o = Some (Json.Str s)).

Definition rival_json : Json.value :=
  Json.Obj [("slug", Json.Str "rival-bistro"); ("name", Json.Str "Rival Bistro");
            ("theme", Json.Obj [("primary", Json.Str "#000000")]);
            ("sourceUrl", Json.Str "https://rival.example/");
            ("lastScrapedAt", Json.Str "1999-12-31T23:59:59.000Z")].

(** A JSON object with the required keys and one review rated 4.5. *)
Definition rated_json : Json.value :=
  Json.Obj [("slug", Json.Str "rival-bistro"); ("name", Json.Str "Rival Bistro");
            ("reviews", Json.Arr [Json.Obj [("text", Json.Str "Lovely terrace.");
                                            ("rating", Json.Num (9 # 2))]]);
            ("sourceUrl", Json.Str "https://rival.example/");
            ("lastScrapedAt", Json.Str "1999-12-31T23:59:59.000Z")].

(** The record that the schema makes of [rated_json]. *)
Definition rated_site : RestaurantSite.t :=
  RestaurantSite.mk "rival-bistro" "Rival Bistro" None None None None None None None None None
    None None (Some [Review.mk None "Lovely terrace." (Some (9 # 2)) None]) None None
    Normalize.default_theme
    "https://rival.example/" "1999-12-31T23:59:59.000Z".

(** A platform with a credential, whose model gives a reply that the
    schema rejects when asked about a record named [Restaurant], and a
    valid reply for any other record. *)
Definition selective_world : World := {|
  now_iso := "2025-01-01T00:00:00.000Z";
  env_OPENAI_API_KEY := Some "sk-test";
  chat_completion := fun raw =>
    if String.eqb (RestaurantSite.name raw) "Restaurant"
    then ApiResolves (Some "{}")
    else ApiResolves (Some rival_reply);
  cwd := "/app";
  fs_exists := fun _ => true;
  fs_mkdir_ok := fun _ => true;
  fs_write_ok := fun _ => true;
  fetch := fun _ => FetchResponse true "200" "OK" true
|}.

(** ** The image localizer *)

(** No image reference of the record needs a download. *)
Definition nothing_to_download (site : RestaurantSite.t) : bool :=
  negb (needs_download (RestaurantSite.heroImage site)) &&
  negb (needs_download (RestaurantSite.logo site)) &&
  match RestaurantSite.menu site with
  | Some categories =>
      forallb (fun c => forallb (fun i => negb (needs_download (MenuItem.image i)))
                          (MenuCategory.items c)) categories
  | None => true
  end &&
  match RestaurantSite.sections site with
  | Some sections => forallb (fun s => negb (needs_download (SiteSection.image s))) sections
  | None => true
  end.

(** The downloads that the record asks for: the URL of every reference
    that needs one, with the name of the file it goes to. *)
Definition download_of (ref : option string) (filename : string) : list (string * string) :=
  match ref with
  | Some url => if needs_download ref then [(url, filename)] else []
  | None => []
  end.

Definition downloads_of (site : RestaurantSite.t) : list (string * string) :=
  (download_of (RestaurantSite.heroImage site) "hero.jpg" ++
   download_of (RestaurantSite.logo site) "logo.jpg" ++
   match RestaurantSite.menu site with
   | Some categories =>
       flat_map (fun c =>
                   flat_map (fun i => download_of (MenuItem.image i)
                                        (Slug.slugify (MenuItem.name i) ++ ".jpg"))
                     (MenuCategory.items c)) categories
   | None => []
   end ++
   match RestaurantSite.sections site with
   | Some sections =>
       flat_map (fun s => download_of (SiteSection.image s)
                            (Slug.slugify (SiteSection.title s) ++ ".jpg")) sections
   | None => []
   end)%list.

(** A record whose image references are local, empty or absent. *)
Definition local_image_site : RestaurantSite.t :=
  RestaurantSite.mk "examplecom" "Example" None
    (Some "/_imports/examplecom/hero.jpg")
    (Some EmptyString)
    None None None None None None None
    (Some [SiteSection.mk "Our Story" "Since 1938." (Some "/_imports/examplecom/our-story.jpg");
           SiteSection.mk "Visit" "Open daily." None])
    None
    (Some [MenuCategory.mk "Noodles"
             [MenuItem.mk "Beef Chow Mein" None (Some "$12")
                (Some "/_imports/examplecom/beef-chow-mein.jpg") None;
              MenuItem.mk "Lo Mein" None (Some "$11") (Some EmptyString) None]])
    None Normalize.default_theme "https://example.com" "2025-01-01T00:00:00.000Z".

(** [five_image_site] without the image that [one_missing_world] does not
    serve. *)
Definition four_image_site : RestaurantSite.t :=
  RestaurantSite.mk "examplecom" "Example" None
    (Some "https://cdn.example.com/hero.png")
    (Some "https://cdn.example.com/logo.png")
    None None None None None None None
    (Some [SiteSection.mk "Our Story" "Since 1938." (Some "https://cdn.example.com/story.png")])
    None
    (Some [MenuCategory.mk "Noodles"
             [MenuItem.mk "Beef Chow Mein" None (Some "$12")
                (Some "https://cdn.example.com/a.png") None;
              MenuItem.mk "Lo Mein" None (Some "$11") None None]])
    None Normalize.default_theme "https://example.com" "2025-01-01T00:00:00.000Z".


Definition is_fetch (e : Event) : bool :=
  match e with FetchRequest _ => true | _ => false end.

(** ** The extractors and the normalizer *)

(** A [src] that [extractImages] keeps: set, not empty, no data URI. *)
Definition collectable (src : option string) (s : string) : Prop :=
  src = Some s /\ Js.truthy s = true /\ Js.startsWith "data:" s = false.

(** An image that can become the hero image: it has a [src], and its area
    is a number above 10000. *)
Definition hero_candidate (img : Extract.ImgElement) (src : string)
    (size : Extract.number) : Prop :=
  Extract.img_src img = Some src /\ Js.truthy src = true /\
  Extract.area img = size /\ Extract.gt size (Extract.Fin 10000) = true.

(** What the loop over the images has found after a list of images. *)
Definition hero_state (images : list Extract.ImgElement)
    (largest : string * Extract.number) : Prop :=
  (largest = (EmptyString, Extract.Fin 0) /\
   forall img src size, In img images -> ~ hero_candidate img src size) \/
  ((exists img, In img images /\ hero_candidate img (fst largest) (snd largest)) /\
   forall img src size, In img images -> hero_candidate img src size ->
                        Extract.gt size (snd largest) = false).

(** Two images whose declared widths differ only beyond the precision of
    a number. *)
Definition wide_images : list Extract.ImgElement :=
  [ {| Extract.img_src := Some "h.png";
       Extract.img_width := Some "10000000000000000001";
       Extract.img_height := Some "1" |};
    {| Extract.img_src := Some "j.png";
       Extract.img_width := Some "10000000000000000002";
       Extract.img_height := Some "1" |} ].

(** A JSON value that [extractJsonLd] accepts. *)
Definition is_business (data : Json.value) : Prop :=
  exists o t, data = Json.Obj o /\ Json.lookup "@type" o = Some (Json.Str t) /\
              (t = "Restaurant" \/ t = "LocalBusiness").


(* ===================================================================== *)
(** * Properties                                                           *)
(* ===================================================================== *)

(** ** The models at work *)

Example url_parse_full :
  Url.parse "HTTPS://User:pw@WWW.Example.COM:8080/a/b?x#y"
  = Ok (Url.mk "https:" "www.example.com" "/a/b").
Proof. vm_compute. reflexivity. Qed.

Example url_parse_no_scheme : Url.parse "www.example.com" = Throw (TypeError "Invalid URL").
Proof. vm_compute. reflexivity. Qed.

Example slugify_dish :
  Slug.slugify "  Beef  Chow_Mein -- (spicy!) " = "beef-chow-mein-spicy".
Proof. vm_compute. reflexivity. Qed.

Example createSlugFromUrl_fallback : Slug.createSlugFromUrl "not a url" = ret "not-a-url".
Proof. vm_compute. reflexivity. Qed.

Example parseHours_with_minutes :
  Normalize.parseHours (Some ("Monday: 11:00am-10:00pm" ++ LF ++ "Closed"))
  = Some [Hour.mk "Monday" "11:00am" "10:00pm"].
Proof. vm_compute. reflexivity. Qed.

(** On a day range the first pattern matches from the second day on. *)
Example parseHours_day_range :
  Normalize.parseHours (Some "Mon-Fri: 9:00 AM - 5:00 PM")
  = Some [Hour.mk "Fri" "9:00 am" "5:00 pm"].
Proof. vm_compute. reflexivity. Qed.

Example json_parse_document :
  Json.parse (json_text "{'a': [1, 2.5, -3e2, true, null], 'b': {'c': 'x\ny'}, 'a': 'z'} ")
  = Ok (Json.Obj [("a", Json.Arr [Json.Num 1; Json.Num (5 # 2); Json.Num (-300);
                                  Json.Bool true; Json.Null]);
                 ("b", Json.Obj [("c", Json.Str ("x" ++ LF ++ "y"))]);
                 ("a", Json.Str "z")]).
Proof. vm_compute. reflexivity. Qed.

Example json_parse_leading_zero :
  Json.parse (json_text "{'a': 01}") = Throw (SyntaxError "Unexpected token in JSON").
Proof. vm_compute. reflexivity. Qed.

Example json_parse_fenced :
  Json.parse "```json {} ```" = Throw (SyntaxError "Unexpected token in JSON").
Proof. vm_compute. reflexivity. Qed.

Example json_lookup_last :
  Json.lookup "a" [("a", Json.Null); ("a", Json.Bool true)] = Some (Json.Bool true).
Proof. reflexivity. Qed.

Example schema_fills_theme :
  ebind (Json.parse (json_text
           "{'slug':'s','name':'n','sourceUrl':'https://example.com','lastScrapedAt':'t'}"))
        Schema.RestaurantSite
  = Ok (RestaurantSite.mk "s" "n" None None None None None None None None None
          None None None None None Normalize.default_theme "https://example.com" "t").
Proof. vm_compute. reflexivity. Qed.

Example schema_rejects_null :
  ebind (Json.parse (json_text
           "{'slug':'s','name':'n','tagline':null,'sourceUrl':'https://example.com','lastScrapedAt':'t'}"))
        Schema.RestaurantSite
  = Throw ZodError.
Proof. vm_compute. reflexivity. Qed.

(** ** General facts about the effect type *)

Lemma bind_ret_l {A B} (a : A) (f : A -> M B) : bind (ret a) f = f a.
Proof. unfold bind, ret. destruct (f a) as [ev r]. reflexivity. Qed.

Lemma outcome_bind_ok {A B} (m : M A) (f : A -> M B) (a : A) :
  outcome m = Ok a -> outcome (bind m f) = outcome (f a).
Proof.
  destruct m as [ev r]. simpl. intros ->. simpl.
  destruct (f a) as [ev' r']. reflexivity.
Qed.

Lemma outcome_bind_throw {A B} (m : M A) (f : A -> M B) (e : Error) :
  outcome m = Throw e -> outcome (bind m f) = Throw e.
Proof. destruct m as [ev r]. simpl. intros ->. reflexivity. Qed.

Lemma outcome_try_catch_ok {A} (m : M A) (h : Error -> M A) (a : A) :
  outcome m = Ok a -> outcome (try_catch m h) = Ok a.
Proof. destruct m as [ev r]. simpl. intros ->. reflexivity. Qed.

Lemma outcome_try_catch_throw {A} (m : M A) (h : Error -> M A) (e : Error) :
  outcome m = Throw e -> outcome (try_catch m h) = outcome (h e).
Proof.
  destruct m as [ev r]. simpl. intros ->. simpl.
  destruct (h e) as [ev' r']. reflexivity.
Qed.

Lemma events_bind_ok {A B} (m : M A) (f : A -> M B) (a : A) :
  outcome m = Ok a -> events (bind m f) = (events m ++ events (f a))%list.
Proof.
  destruct m as [ev r]. simpl. intros ->. simpl.
  destruct (f a) as [ev' r']. reflexivity.
Qed.

(** ** lib/slug.ts *)

(** [createSlugFromUrl] has no effect and never throws: the [catch] block
    takes over when the URL does not parse. *)
Lemma createSlugFromUrl_eq (url : string) :
  Slug.createSlugFromUrl url =
  ret (match Url.parse url with
       | Ok urlObj => Slug.slugify (Slug.strip_www (Url.hostname urlObj))
       | Throw _ => Slug.slugify url
       end).
Proof.
  unfold Slug.createSlugFromUrl, lift, try_catch, bind, ret.
  destruct (Url.parse url); reflexivity.
Qed.

(** The slug depends on the URL through its host name only: two URLs that
    parse, whose host names differ by one leading [www.], get one slug,
    provided the shorter host name does not itself start with [www.]. *)
Lemma createSlugFromUrl_www (u1 u2 : string) (o1 o2 : Url.t) :
  Url.parse u1 = Ok o1 -> Url.parse u2 = Ok o2 ->
  Url.hostname o1 = "www." ++ Url.hostname o2 ->
  Slug.strip_www (Url.hostname o2) = Url.hostname o2 ->
  Slug.createSlugFromUrl u1 = Slug.createSlugFromUrl u2.
Proof.
  intros H1 H2 Hw Hn. rewrite !createSlugFromUrl_eq, H1, H2, Hw.
  simpl. rewrite Hn. reflexivity.
Qed.

(** C3. [createSlugFromUrl] gives one slug for [http://www.example.com/]
    and [https://example.com], but that slug is [examplecom], not
    [example-com]: the dot of the host name is deleted by the first
    replacement of [slugify] before the second one could turn it into a
    hyphen.  The same happens on the URL of the README, whose documented
    slug is [wohop17-com]. *)
Theorem createSlugFromUrl_example_com :
  Slug.createSlugFromUrl "http://www.example.com/" = ret "examplecom" /\
  Slug.createSlugFromUrl "https://example.com" = ret "examplecom" /\
  Slug.createSlugFromUrl "https://example.com" <> ret "example-com" /\
  Slug.createSlugFromUrl "https://www.wohop17.com/" = ret "wohop17com".
Proof.
  repeat split; try (vm_compute; reflexivity).
  vm_compute. intros H. discriminate H.
Qed.

(** ** lib/normalize.ts *)

(** C4. On ["Monday: 11am-10pm\nClosed"] the hours parser sees the two
    lines, matches neither pattern on either of them and returns
    [undefined]: no entry for Monday.  Both patterns want the times written
    with a colon and minutes, and then the line is parsed. *)
Theorem parseHours_monday_11am :
  Normalize.hour_lines ("Monday: 11am-10pm" ++ LF ++ "Closed")
    = ["Monday: 11am-10pm"; "Closed"] /\
  Regex.exec Normalize.pattern_single_day "Monday: 11am-10pm" = None /\
  Regex.exec Normalize.pattern_day_range "Monday: 11am-10pm" = None /\
  Normalize.parseHours (Some ("Monday: 11am-10pm" ++ LF ++ "Closed")) = None /\
  Normalize.parseHours (Some ("Monday: 11:00am-10:00pm" ++ LF ++ "Closed"))
    = Some [Hour.mk "Monday" "11:00am" "10:00pm"].
Proof. repeat split; vm_compute; reflexivity. Qed.

(** The normalizer emits no event and returns a record, whatever the
    input. *)
Lemma normalizeRestaurantData_returns (w : World) (d : ScrapedData.t) (url : string) :
  exists site, Normalize.normalizeRestaurantData w d url = ret site /\
    RestaurantSite.lastScrapedAt site = now_iso w /\
    RestaurantSite.slug site =
      match Url.parse url with
      | Ok urlObj => Slug.slugify (Slug.strip_www (Url.hostname urlObj))
      | Throw _ => Slug.slugify url
      end.
Proof.
  unfold Normalize.normalizeRestaurantData.
  rewrite createSlugFromUrl_eq, bind_ret_l.
  eexists. split; [reflexivity |]. split; reflexivity.
Qed.

(** C7. Two runs of the normalizer on one [ScrapedData] and one source URL,
    in any two states of the platform (clock, environment, network), both
    return, and the two records agree on every field other than
    [lastScrapedAt], which is the clock reading of each run. *)
Theorem normalizeRestaurantData_deterministic
    (w1 w2 : World) (d : ScrapedData.t) (url : string) :
  exists s1 s2,
    Normalize.normalizeRestaurantData w1 d url = ret s1 /\
    Normalize.normalizeRestaurantData w2 d url = ret s2 /\
    same_but_lastScrapedAt s1 s2 /\
    RestaurantSite.lastScrapedAt s1 = now_iso w1 /\
    RestaurantSite.lastScrapedAt s2 = now_iso w2.
Proof.
  unfold Normalize.normalizeRestaurantData.
  rewrite createSlugFromUrl_eq, !bind_ret_l.
  do 2 eexists. split; [reflexivity |]. split; [reflexivity |].
  split; [| split; reflexivity].
  unfold same_but_lastScrapedAt. simpl. repeat split.
Qed.

(** C8, as the code has it.  The normalizer returns a record on every
    input and emits nothing.  A name that is absent or empty becomes
    ['Restaurant'].  A source URL that does not parse is no failure: the
    slug is then [slugify] of the whole string. *)
Theorem normalizeRestaurantData_never_fails
    (w : World) (d : ScrapedData.t) (url : string) :
  exists site,
    Normalize.normalizeRestaurantData w d url = ret site /\
    (Js.truthy_opt (ScrapedData.name d) = false ->
       RestaurantSite.name site = "Restaurant") /\
    (forall n, ScrapedData.name d = Some n -> Js.truthy n = true ->
       RestaurantSite.name site = n) /\
    (forall e, Url.parse url = Throw e ->
       RestaurantSite.slug site = Slug.slugify url) /\
    RestaurantSite.sourceUrl site = url.
Proof.
  unfold Normalize.normalizeRestaurantData.
  rewrite createSlugFromUrl_eq, bind_ret_l.
  eexists. split; [reflexivity |]. simpl. repeat split.
  - unfold Js.or_default, Js.truthy_opt. destruct (ScrapedData.name d) as [n |].
    + intros ->. reflexivity.
    + reflexivity.
  - intros n -> Hn. unfold Js.or_default. rewrite Hn. reflexivity.
  - intros e ->. reflexivity.
Qed.

(** C8, counterexample.  ["not a url"] does not parse as a URL, and the
    normalizer returns a record for it, with the placeholder name and the
    slug [not-a-url]: it does not fail. *)
Lemma normalizeRestaurantData_unparseable_url :
  Url.parse "not a url" = Throw (TypeError "Invalid URL") /\
  exists site,
    Normalize.normalizeRestaurantData offline_world empty_scraped "not a url" = ret site /\
    RestaurantSite.slug site = "not-a-url" /\
    RestaurantSite.name site = "Restaurant" /\
    ~ (exists e, outcome (Normalize.normalizeRestaurantData offline_world empty_scraped
                            "not a url") = Throw e).
Proof.
  split; [vm_compute; reflexivity |].
  eexists. split; [vm_compute; reflexivity |].
  split; [reflexivity |]. split; [reflexivity |].
  intros [e He]. vm_compute in He. discriminate He.
Qed.

(** ** lib/rewrite.ts *)

Lemma ask_model_unusable (w : World) (raw : RestaurantSite.t) :
  response_unusable (chat_completion w raw) ->
  exists e, outcome (Rewrite.ask_model w raw) = Throw e.
Proof.
  unfold Rewrite.ask_model, response_unusable.
  destruct (chat_completion w raw) as [e | [content |]].
  - intros _. exists e. reflexivity.
  - intros [-> | [[e He] | [cleaned [e [Hp Hv]]]]].
    + eexists. reflexivity.
    + destruct content as [| c content']; [eexists; reflexivity |].
      exists e. simpl. unfold lift. rewrite He. reflexivity.
    + destruct content as [| c content']; [eexists; reflexivity |].
      exists e. simpl. unfold lift. rewrite Hp. simpl. rewrite Hv. reflexivity.
  - intros _. eexists. reflexivity.
Qed.

Lemma ask_model_accepted (w : World) (raw validated : RestaurantSite.t) :
  response_accepted (chat_completion w raw) validated ->
  outcome (Rewrite.ask_model w raw) = Ok validated.
Proof.
  intros [content [cleaned [Hr [Ht [Hp Hv]]]]].
  unfold Rewrite.ask_model. rewrite Hr.
  destruct content as [| c content']; [discriminate Ht |].
  simpl. unfold lift. rewrite Hp. simpl. rewrite Hv. reflexivity.
Qed.

(** C1. Whenever the reply of the model is unusable (the call rejects, the
    content is absent or empty, it is not JSON, or it fails the schema),
    [rewriteContent] does not throw and returns the record it was given,
    with or without a credential. *)
Theorem rewriteContent_fallback (w : World) (raw : RestaurantSite.t) :
  response_unusable (chat_completion w raw) ->
  outcome (Rewrite.rewriteContent w raw) = Ok raw.
Proof.
  intros H. unfold Rewrite.rewriteContent.
  destruct (negb (Js.truthy_opt (env_OPENAI_API_KEY w))); [reflexivity |].
  destruct (ask_model_unusable w raw H) as [e He].
  rewrite (outcome_try_catch_throw _ _ e He). reflexivity.
Qed.

(** C5. With no credential in the environment (the variable unset, or set
    to the empty string) [rewriteContent] returns the record it was given;
    its only effect is one line on the console, and no request is sent to
    the model. *)
Theorem rewriteContent_no_credential (w : World) (raw : RestaurantSite.t) :
  env_OPENAI_API_KEY w = None \/ env_OPENAI_API_KEY w = Some EmptyString ->
  Rewrite.rewriteContent w raw =
    ([ConsoleLog "No OpenAI API key found, skipping content rewrite"], Ok raw) /\
  ~ In ChatCompletionRequest (events (Rewrite.rewriteContent w raw)).
Proof.
  intros H. unfold Rewrite.rewriteContent.
  assert (Hk : Js.truthy_opt (env_OPENAI_API_KEY w) = false)
    by (destruct H as [-> | ->]; reflexivity).
  rewrite Hk. simpl. split; [reflexivity |].
  intros [Hin | []]. discriminate Hin.
Qed.

Lemma ebind_ok_inv {A B} (m : Exc A) (f : A -> Exc B) (b : B) :
  ebind m f = Ok b -> exists a, m = Ok a /\ f a = Ok b.
Proof. destruct m as [a | e]; simpl; [eauto | discriminate]. Qed.

Lemma required_string_inv (key : string) (o : list (string * Json.value)) (s : string) :
  Zod.required Zod.string_ key o = Ok s -> Json.lookup key o = Some (Json.Str s).
Proof.
  unfold Zod.required, Zod.string_.
  destruct (Json.lookup key o) as [[] |]; try discriminate.
  intros H. injection H as ->. reflexivity.
Qed.

Lemma required_url_inv (key : string) (o : list (string * Json.value)) (s : string) :
  Zod.required Zod.url key o = Ok s -> Json.lookup key o = Some (Json.Str s).
Proof.
  unfold Zod.required, Zod.url, Zod.string_.
  destruct (Json.lookup key o) as [[] |]; try discriminate. simpl.
  destruct (Url.parse s0); try discriminate.
  intros H. injection H as ->. reflexivity.
Qed.

(** What the schema accepts is an object, and the slug, the theme and the
    provenance fields of the validated record are read from that object. *)
Lemma RestaurantSite_parse_fields (cleaned : Json.value) (validated : RestaurantSite.t) :
  Schema.RestaurantSite cleaned = Ok validated ->
  exists o, cleaned = Json.Obj o /\
    Json.lookup "slug" o = Some (Json.Str (RestaurantSite.slug validated)) /\
    Schema.theme_key o = Ok (RestaurantSite.theme validated) /\
    Json.lookup "sourceUrl" o = Some (Json.Str (RestaurantSite.sourceUrl validated)) /\
    Json.lookup "lastScrapedAt" o
      = Some (Json.Str (RestaurantSite.lastScrapedAt validated)).
Proof.
  unfold Schema.RestaurantSite, Zod.object.
  destruct cleaned as [| | | | | o]; try discriminate.
  intros H. exists o. split; [reflexivity |].
  repeat (apply ebind_ok_inv in H; destruct H as (? & ? & H); cbv beta in H).
  injection H as <-. simpl.
  repeat split; auto using required_string_inv, required_url_inv.
Qed.

(** C6, as the code has it.  When a credential is configured and the reply
    of the model is accepted, [rewriteContent] returns the validated reply
    itself.  Its slug, source URL and time stamp are the strings under
    those keys of the reply, and its theme is the theme of the reply with
    the defaults for absent colours: none of them is taken from the
    record that was sent. *)
Theorem rewriteContent_returns_validated
    (w : World) (raw validated : RestaurantSite.t) :
  Js.truthy_opt (env_OPENAI_API_KEY w) = true ->
  response_accepted (chat_completion w raw) validated ->
  outcome (Rewrite.rewriteContent w raw) = Ok validated /\
  exists content o,
    chat_completion w raw = ApiResolves (Some content) /\
    Json.parse content = Ok (Json.Obj o) /\
    Json.lookup "slug" o = Some (Json.Str (RestaurantSite.slug validated)) /\
    Schema.theme_key o = Ok (RestaurantSite.theme validated) /\
    Json.lookup "sourceUrl" o = Some (Json.Str (RestaurantSite.sourceUrl validated)) /\
    Json.lookup "lastScrapedAt" o
      = Some (Json.Str (RestaurantSite.lastScrapedAt validated)).
Proof.
  intros Hk Ha. split.
  - unfold Rewrite.rewriteContent. rewrite Hk. simpl.
    apply outcome_try_catch_ok, ask_model_accepted, Ha.
  - destruct Ha as [content [cleaned [Hr [_ [Hp Hv]]]]].
    destruct (RestaurantSite_parse_fields _ _ Hv) as [o [-> Hf]].
    exists content, o. split; [exact Hr |]. split; [exact Hp |]. exact Hf.
Qed.

Lemma rival_reply_accepted :
  response_accepted (ApiResolves (Some rival_reply)) rival_site.
Proof.
  exists rival_reply. eexists. split; [reflexivity |]. split; [reflexivity |].
  split; vm_compute; reflexivity.
Qed.

(** C6, counterexample.  The reply [rival_reply] is accepted, and the
    record returned for [example_site] has another slug, another theme,
    another source URL and another time stamp than [example_site]. *)
Lemma rewriteContent_changes_slug_and_provenance :
  let w := world_with_model (ApiResolves (Some rival_reply)) in
  response_accepted (chat_completion w example_site) rival_site /\
  outcome (Rewrite.rewriteContent w example_site) = Ok rival_site /\
  RestaurantSite.slug rival_site <> RestaurantSite.slug example_site /\
  RestaurantSite.theme rival_site <> RestaurantSite.theme example_site /\
  RestaurantSite.sourceUrl rival_site <> RestaurantSite.sourceUrl example_site /\
  RestaurantSite.lastScrapedAt rival_site <> RestaurantSite.lastScrapedAt example_site.
Proof.
  simpl. split; [exact rival_reply_accepted |].
  split; [vm_compute; reflexivity |].
  repeat split; vm_compute; intros H; discriminate H.
Qed.

(** Witness of C6: the hypotheses hold for [rival_reply]. *)
Lemma rewriteContent_returns_validated_witness :
  outcome (Rewrite.rewriteContent (world_with_model (ApiResolves (Some rival_reply)))
             example_site) = Ok rival_site /\
  exists content o,
    chat_completion (world_with_model (ApiResolves (Some rival_reply))) example_site
      = ApiResolves (Some content) /\
    Json.parse content = Ok (Json.Obj o) /\
    Json.lookup "slug" o = Some (Json.Str (RestaurantSite.slug rival_site)) /\
    Schema.theme_key o = Ok (RestaurantSite.theme rival_site) /\
    Json.lookup "sourceUrl" o = Some (Json.Str (RestaurantSite.sourceUrl rival_site)) /\
    Json.lookup "lastScrapedAt" o
      = Some (Json.Str (RestaurantSite.lastScrapedAt rival_site)).
Proof.
  apply (rewriteContent_returns_validated
           (world_with_model (ApiResolves (Some rival_reply))) example_site rival_site).
  - reflexivity.
  - exact rival_reply_accepted.
Defined.

(** Witness of C1: the model answers with a fenced block, which is not
    JSON. *)
Lemma rewriteContent_fallback_witness :
  response_unusable (ApiResolves (Some "```json {} ```")) /\
  outcome (Rewrite.rewriteContent (world_with_model (ApiResolves (Some "```json {} ```")))
             example_site) = Ok example_site.
Proof.
  assert (H : response_unusable (ApiResolves (Some "```json {} ```"))).
  { simpl. right. left. eexists. vm_compute. reflexivity. }
  split; [exact H |].
  apply (rewriteContent_fallback (world_with_model (ApiResolves (Some "```json {} ```")))
           example_site).
  exact H.
Defined.

(** Witness of C5: the offline platform has no credential. *)
Lemma rewriteContent_no_credential_witness :
  Rewrite.rewriteContent offline_world example_site =
    ([ConsoleLog "No OpenAI API key found, skipping content rewrite"], Ok example_site) /\
  ~ In ChatCompletionRequest (events (Rewrite.rewriteContent offline_world example_site)).
Proof.
  apply (rewriteContent_no_credential offline_world example_site).
  left. reflexivity.
Defined.

Example example_site_normalized :
  Normalize.normalizeRestaurantData offline_world empty_scraped "https://example.com"
  = ret example_site.
Proof. vm_compute. reflexivity. Qed.

(** ** lib/images.ts *)

Lemma truthy_jpg (s : string) : Js.truthy (s ++ ".jpg") = true.
Proof. destruct s; reflexivity. Qed.

Lemma downloadImage_outcome (w : World) (url slug filename : string) :
  Js.truthy filename = true ->
  exists ev r,
    Images.downloadImage w url slug (Some filename) = (ev, Ok r) /\
    (r = None \/ r = Some (Images.local_path slug filename)) /\
    (fetch_fails w url -> r = None) /\
    (download_succeeds w slug url filename -> r = Some (Images.local_path slug filename)).
Proof.
  intros Hf.
  unfold Images.downloadImage, Images.download, fetch_fails, download_succeeds, imports_dir.
  unfold Js.truthy_opt, Js.or_default. rewrite Hf.
  set (dir := cwd w ++ "/public/_imports/" ++ slug).
  destruct (fs_exists w dir); destruct (fs_mkdir_ok w dir);
    destruct (fetch w url) as [e | [|] status statusText [|]];
    cbn -[String.append Images.local_path];
    try destruct (fs_write_ok w _);
    cbn -[String.append Images.local_path];
    do 2 eexists; (split; [reflexivity |]);
    (split; [auto |]); split; intros H;
    try reflexivity; try discriminate H;
    try (destruct H as [H1 [[s1 [s2 H2]] H3]]; discriminate).
Qed.

Lemma localize_spec (w : World) (slug : string) (ref : option string) (filename : string) :
  Js.truthy filename = true ->
  exists ev after,
    Images.localize w slug ref filename = (ev, Ok after) /\
    localized w slug filename ref after.
Proof.
  intros Hf. unfold Images.localize, localized.
  destruct ref as [u |].
  - destruct (Images.is_remote (Some u)) eqn:Hr.
    + destruct (downloadImage_outcome w u slug filename Hf)
        as [ev [r [Hd [Hcases [Hfail Hsucc]]]]].
      rewrite Hd. unfold bind, ret. simpl.
      do 2 eexists. split; [reflexivity |].
      split; [discriminate |]. split; [| split].
      * intros url Hu _ Hff. injection Hu as <-. rewrite (Hfail Hff). reflexivity.
      * intros url Hu _ Hs. injection Hu as <-. rewrite (Hsucc Hs). reflexivity.
      * destruct Hcases as [-> | ->]; [left; reflexivity |].
        simpl. right. reflexivity.
    + do 2 eexists. split; [reflexivity |].
      split; [reflexivity |]. split; [| split].
      * intros url _ H. discriminate H.
      * intros url _ H. discriminate H.
      * left. reflexivity.
  - do 2 eexists. split; [reflexivity |].
    split; [reflexivity |]. split; [| split].
    + intros url H. discriminate H.
    + intros url H. discriminate H.
    + left. reflexivity.
Qed.

(** A loop whose body always returns, and relates the element after the
    iteration to the element before, returns and relates the two lists
    element by element. *)
Lemma for_each_Forall2 {A} (body : A -> M A) (R : A -> A -> Prop) :
  (forall a, exists ev a', body a = (ev, Ok a') /\ R a a') ->
  forall l, exists ev l', for_each body l = (ev, Ok l') /\ Forall2 R l l'.
Proof.
  intros Hbody. induction l as [| a l IH].
  - exists [], []. split; [reflexivity | constructor].
  - destruct (Hbody a) as [ev1 [a' [Ha HR]]].
    destruct IH as [ev2 [l' [Hl HF]]].
    simpl. rewrite Ha, Hl. unfold bind, ret. simpl.
    do 2 eexists. split; [reflexivity |]. constructor; assumption.
Qed.

Lemma for_each_opt_Forall2 {A} (body : A -> M A) (R : A -> A -> Prop) :
  (forall a, exists ev a', body a = (ev, Ok a') /\ R a a') ->
  forall o, exists ev o', Images.for_each_opt body o = (ev, Ok o') /\ opt_rel (Forall2 R) o o'.
Proof.
  intros Hbody [l |].
  - destruct (for_each_Forall2 body R Hbody l) as [ev [l' [Hl HF]]].
    simpl. rewrite Hl. unfold bind, ret. simpl.
    do 2 eexists. split; [reflexivity | exact HF].
  - exists [], None. split; [reflexivity | exact I].
Qed.

Lemma localize_item_spec (w : World) (slug : string) (i : MenuItem.t) :
  exists ev i', Images.localize_item w slug i = (ev, Ok i') /\ item_localized w slug i i'.
Proof.
  unfold Images.localize_item.
  destruct (localize_spec w slug (MenuItem.image i)
              (Images.slugify (MenuItem.name i) ++ ".jpg") (truthy_jpg _))
    as [ev [after [Hl Hloc]]].
  rewrite Hl. unfold bind, ret. simpl.
  do 2 eexists. split; [reflexivity |].
  unfold item_localized. simpl. repeat split; try reflexivity; apply Hloc.
Qed.

Lemma localize_category_spec (w : World) (slug : string) (c : MenuCategory.t) :
  exists ev c', Images.localize_category w slug c = (ev, Ok c') /\
                category_localized w slug c c'.
Proof.
  unfold Images.localize_category.
  destruct (for_each_Forall2 _ _ (localize_item_spec w slug) (MenuCategory.items c))
    as [ev [items' [Hl HF]]].
  rewrite Hl. unfold bind, ret. simpl.
  do 2 eexists. split; [reflexivity |]. split; [reflexivity | exact HF].
Qed.

Lemma localize_section_spec (w : World) (slug : string) (s : SiteSection.t) :
  exists ev s', Images.localize_section w slug s = (ev, Ok s') /\
                section_localized w slug s s'.
Proof.
  unfold Images.localize_section.
  destruct (localize_spec w slug (SiteSection.image s)
              (Images.slugify (SiteSection.title s) ++ ".jpg") (truthy_jpg _))
    as [ev [after [Hl Hloc]]].
  rewrite Hl. unfold bind, ret. simpl.
  do 2 eexists. split; [reflexivity |].
  unfold section_localized. simpl. repeat split; try reflexivity; apply Hloc.
Qed.

(** [downloadAllImages] returns a record made of the input record with the
    four kinds of image reference localized. *)
Lemma downloadAllImages_spec (w : World) (site : RestaurantSite.t) (slug : string) :
  exists ev heroImage logo menu sections,
    Images.downloadAllImages w site slug =
      (ev, Ok (RestaurantSite.mk
                 (RestaurantSite.slug site) (RestaurantSite.name site)
                 (RestaurantSite.tagline site) heroImage logo
                 (RestaurantSite.phone site) (RestaurantSite.email site)
                 (RestaurantSite.address site) (RestaurantSite.hours site)
                 (RestaurantSite.reservationUrl site) (RestaurantSite.orderOnlineUrl site)
                 (RestaurantSite.social site) sections (RestaurantSite.reviews site)
                 menu (RestaurantSite.images site) (RestaurantSite.theme site)
                 (RestaurantSite.sourceUrl site) (RestaurantSite.lastScrapedAt site))) /\
    localized w slug "hero.jpg" (RestaurantSite.heroImage site) heroImage /\
    localized w slug "logo.jpg" (RestaurantSite.logo site) logo /\
    opt_rel (Forall2 (category_localized w slug)) (RestaurantSite.menu site) menu /\
    opt_rel (Forall2 (section_localized w slug)) (RestaurantSite.sections site) sections.
Proof.
  unfold Images.downloadAllImages.
  destruct (localize_spec w slug (RestaurantSite.heroImage site) "hero.jpg" eq_refl)
    as [ev1 [hero [H1 L1]]].
  destruct (localize_spec w slug (RestaurantSite.logo site) "logo.jpg" eq_refl)
    as [ev2 [logo [H2 L2]]].
  destruct (for_each_opt_Forall2 _ _ (localize_category_spec w slug) (RestaurantSite.menu site))
    as [ev3 [menu [H3 L3]]].
  destruct (for_each_opt_Forall2 _ _ (localize_section_spec w slug)
              (RestaurantSite.sections site))
    as [ev4 [sections [H4 L4]]].
  rewrite H1, H2, H3, H4. unfold bind, ret. simpl.
  exists (ev1 ++ ev2 ++ ev3 ++ ev4 ++ [])%list, hero, logo, menu, sections.
  split; [reflexivity |]. auto.
Qed.

Lemma is_remote_needs_download (ref : option string) :
  Images.is_remote ref = needs_download ref.
Proof.
  destruct ref as [[| c s] |]; try reflexivity.
  destruct c as [[] [] [] [] [] [] [] []]; destruct s; reflexivity.
Qed.

Lemma localized_settled (w : World) (slug filename : string) (before after : option string) :
  localized w slug filename before after -> settled w slug filename before after.
Proof.
  intros [Hlocal [Hfail [Hsucc _]]]. unfold settled.
  rewrite <- is_remote_needs_download. split; [exact Hlocal |]. split; [exact Hfail |].
  exact Hsucc.
Qed.

(** C2. [downloadAllImages] never throws, whatever the network and the
    disk do.  In the record it returns, each of the four kinds of image
    reference (hero, logo, menu item, section) stands as follows: a
    reference that is absent, empty or starts with a slash is as before; a
    reference to be fetched whose download fails (rejected request or
    non-success response) is as before, that is, the remote URL; a
    reference to be fetched whose download succeeds is the string
    [/_imports/<slug>/<filename>], the file name being [hero.jpg],
    [logo.jpg], or the slugified item name or section title followed by
    [.jpg].  One failure leaves the other references alone, as each is
    settled by its own download. *)
Theorem downloadAllImages_tolerates_failures
    (w : World) (site : RestaurantSite.t) (slug : string) :
  exists site',
    outcome (Images.downloadAllImages w site slug) = Ok site' /\
    settled w slug "hero.jpg"
      (RestaurantSite.heroImage site) (RestaurantSite.heroImage site') /\
    settled w slug "logo.jpg"
      (RestaurantSite.logo site) (RestaurantSite.logo site') /\
    opt_rel (Forall2 (fun c c' =>
               Forall2 (fun i i' =>
                  settled w slug (Slug.slugify (MenuItem.name i) ++ ".jpg")
                    (MenuItem.image i) (MenuItem.image i'))
                 (MenuCategory.items c) (MenuCategory.items c')))
      (RestaurantSite.menu site) (RestaurantSite.menu site') /\
    opt_rel (Forall2 (fun s s' =>
               settled w slug (Slug.slugify (SiteSection.title s) ++ ".jpg")
                 (SiteSection.image s) (SiteSection.image s')))
      (RestaurantSite.sections site) (RestaurantSite.sections site').
Proof.
  destruct (downloadAllImages_spec w site slug)
    as [ev [hero [logo [menu [sections [Hrun [Lh [Ll [Lm Ls]]]]]]]]].
  rewrite Hrun. eexists. split; [reflexivity |]. simpl.
  split; [exact (localized_settled _ _ _ _ _ Lh) |].
  split; [exact (localized_settled _ _ _ _ _ Ll) |]. split.
  - destruct (RestaurantSite.menu site), menu; simpl in *; try exact Lm.
    eapply Forall2_impl; [| exact Lm].
    intros c c' [_ Hitems].
    eapply Forall2_impl; [| exact Hitems].
    intros i i' Hi. apply localized_settled, Hi.
  - destruct (RestaurantSite.sections site), sections; simpl in *; try exact Ls.
    eapply Forall2_impl; [| exact Ls].
    intros s s' Hs. apply localized_settled, Hs.
Qed.

Example five_images_one_fails :
  outcome (Images.downloadAllImages one_missing_world five_image_site "examplecom") =
  Ok (RestaurantSite.mk "examplecom" "Example" None
        (Some "/_imports/examplecom/hero.jpg")
        (Some "/_imports/examplecom/logo.jpg")
        None None None None None None None
        (Some [SiteSection.mk "Our Story" "Since 1938."
                 (Some "/_imports/examplecom/our-story.jpg")])
        None
        (Some [MenuCategory.mk "Noodles"
                 [MenuItem.mk "Beef Chow Mein" None (Some "$12")
                    (Some "/_imports/examplecom/beef-chow-mein.jpg") None;
                  MenuItem.mk "Lo Mein" None (Some "$11")
                    (Some "https://cdn.example.com/b.png") None]])
        None Normalize.default_theme "https://example.com" "2025-01-01T00:00:00.000Z").
Proof. vm_compute. reflexivity. Qed.

Lemma localized_local_kept (w : World) (slug filename : string) (before after : option string) :
  localized w slug filename before after -> local_kept before after.
Proof.
  intros [Hlocal _]. split.
  - intros path -> Hs. apply Hlocal. unfold Images.is_remote. rewrite Hs.
    apply andb_false_r.
  - intros ->. apply Hlocal. reflexivity.
Qed.

(** C10. In the record that [downloadAllImages] returns, the fields other
    than [heroImage], [logo], [menu] and [sections] are those of the
    input; the menu has the same categories with the same names, each with
    the same items in the same order, whose name, description, price and
    dietary tags are unchanged; the sections are the same in number and
    order, with title and body unchanged; and each of the four kinds of
    image reference that starts with a slash (or is absent) is
    unchanged. *)
Theorem downloadAllImages_frame
    (w : World) (site : RestaurantSite.t) (slug : string) :
  exists site',
    outcome (Images.downloadAllImages w site slug) = Ok site' /\
    RestaurantSite.slug site' = RestaurantSite.slug site /\
    RestaurantSite.name site' = RestaurantSite.name site /\
    RestaurantSite.tagline site' = RestaurantSite.tagline site /\
    RestaurantSite.phone site' = RestaurantSite.phone site /\
    RestaurantSite.email site' = RestaurantSite.email site /\
    RestaurantSite.address site' = RestaurantSite.address site /\
    RestaurantSite.hours site' = RestaurantSite.hours site /\
    RestaurantSite.reservationUrl site' = RestaurantSite.reservationUrl site /\
    RestaurantSite.orderOnlineUrl site' = RestaurantSite.orderOnlineUrl site /\
    RestaurantSite.social site' = RestaurantSite.social site /\
    RestaurantSite.reviews site' = RestaurantSite.reviews site /\
    RestaurantSite.images site' = RestaurantSite.images site /\
    RestaurantSite.theme site' = RestaurantSite.theme site /\
    RestaurantSite.sourceUrl site' = RestaurantSite.sourceUrl site /\
    RestaurantSite.lastScrapedAt site' = RestaurantSite.lastScrapedAt site /\
    local_kept (RestaurantSite.heroImage site) (RestaurantSite.heroImage site') /\
    local_kept (RestaurantSite.logo site) (RestaurantSite.logo site') /\
    opt_rel (Forall2 (fun c c' =>
               MenuCategory.name c' = MenuCategory.name c /\
               Forall2 (fun i i' =>
                  MenuItem.name i' = MenuItem.name i /\
                  MenuItem.description i' = MenuItem.description i /\
                  MenuItem.price i' = MenuItem.price i /\
                  MenuItem.dietary i' = MenuItem.dietary i /\
                  local_kept (MenuItem.image i) (MenuItem.image i'))
                 (MenuCategory.items c) (MenuCategory.items c')))
      (RestaurantSite.menu site) (RestaurantSite.menu site') /\
    opt_rel (Forall2 (fun s s' =>
               SiteSection.title s' = SiteSection.title s /\
               SiteSection.body s' = SiteSection.body s /\
               local_kept (SiteSection.image s) (SiteSection.image s')))
      (RestaurantSite.sections site) (RestaurantSite.sections site').
Proof.
  destruct (downloadAllImages_spec w site slug)
    as [ev [hero [logo [menu [sections [Hrun [Lh [Ll [Lm Ls]]]]]]]]].
  rewrite Hrun. eexists. split; [reflexivity |]. simpl.
  repeat (split; [reflexivity |]).
  split; [exact (localized_local_kept _ _ _ _ _ Lh) |].
  split; [exact (localized_local_kept _ _ _ _ _ Ll) |].
  split.
  - destruct (RestaurantSite.menu site), menu; simpl in *; try exact Lm.
    eapply Forall2_impl; [| exact Lm].
    intros c c' [Hname Hitems]. split; [exact Hname |].
    eapply Forall2_impl; [| exact Hitems].
    intros i i' [H1 [H2 [H3 [H4 H5]]]].
    repeat (split; [assumption |]).
    exact (localized_local_kept _ _ _ _ _ H5).
  - destruct (RestaurantSite.sections site), sections; simpl in *; try exact Ls.
    eapply Forall2_impl; [| exact Ls].
    intros s s' [H1 [H2 H3]].
    repeat (split; [assumption |]).
    exact (localized_local_kept _ _ _ _ _ H3).
Qed.

(** ** lib/scrape.ts and the whole run *)

(** C9. On a page whose review is marked [10/10], [extractReviews] yields
    the rating 10; the normalizer copies it, and a run without the
    rewriter returns, on any platform, a record whose review has the
    rating 10, a value that the schema of [Review] rejects. *)
Theorem pipeline_keeps_rating_out_of_bounds (w : World) :
  Scrape.extractReviews ten_out_of_ten_page =
    [Review.mk None "Best dumplings in Chinatown, hands down. 10/10" (Some (10 # 1)) None] /\
  (exists site,
     outcome (Pipeline.build w false ten_out_of_ten_scraped "https://example.com") = Ok site /\
     RestaurantSite.reviews site =
       Some [Review.mk None "Best dumplings in Chinatown, hands down. 10/10"
               (Some (10 # 1)) None]) /\
  Zod.min_max 1 5 Zod.number (Json.Num (10 # 1)) = Throw ZodError /\
  Schema.Review
    (Json.Obj [("text", Json.Str "Best dumplings in Chinatown, hands down. 10/10");
               ("rating", Json.Num (10 # 1))]) = Throw ZodError.
Proof.
  split; [vm_compute; reflexivity |].
  split; [| split; vm_compute; reflexivity].
  eexists. split; [vm_compute; reflexivity |]. reflexivity.
Qed.

(* ===================================================================== *)
(** * Further properties                                                   *)
(* ===================================================================== *)

(** ** lib/slug.ts : the shape of a slug *)

Lemma append_nil_r (s : string) : s ++ "" = s.
Proof. induction s as [| c s IH]; simpl; [reflexivity | rewrite IH; reflexivity]. Qed.

Lemma append_assoc (a b c : string) : (a ++ b) ++ c = a ++ (b ++ c).
Proof. induction a as [| x a IH]; simpl; [reflexivity | rewrite IH; reflexivity]. Qed.

Lemma rev_append_eq (s acc : string) : Js.rev_append s acc = Js.rev s ++ acc.
Proof.
  unfold Js.rev. revert acc. induction s as [| c s IH]; intros acc; simpl.
  - reflexivity.
  - rewrite (IH (String c acc)), (IH (String c "")), append_assoc. reflexivity.
Qed.

Lemma rev_cons (c : ascii) (s : string) : Js.rev (String c s) = Js.rev s ++ String c "".
Proof. unfold Js.rev at 1. simpl. apply rev_append_eq. Qed.

Lemma rev_app_one (s : string) (c : ascii) : Js.rev (s ++ String c "") = String c (Js.rev s).
Proof.
  induction s as [| x s IH]; simpl.
  - reflexivity.
  - rewrite !rev_cons, IH. reflexivity.
Qed.

Lemma drop_while_app_one (p : ascii -> bool) (s : string) (c : ascii) :
  Js.drop_while p (s ++ String c "") =
  match Js.drop_while p s with
  | EmptyString => if p c then EmptyString else String c EmptyString
  | t => t ++ String c ""
  end.
Proof.
  induction s as [| x s IH]; simpl.
  - reflexivity.
  - destruct (p x); [exact IH | reflexivity].
Qed.

Lemma drop_while_end_eq (p : ascii -> bool) (s : string) :
  Js.drop_while_end p s = strip_end p s.
Proof.
  unfold Js.drop_while_end. induction s as [| c s IH]; [reflexivity |].
  rewrite rev_cons, drop_while_app_one.
  change (strip_end p (String c s)) with
    (match strip_end p s with
     | EmptyString => if p c then EmptyString else String c EmptyString
     | t => String c t
     end).
  rewrite <- IH.
  destruct (Js.drop_while p (Js.rev s)) as [| y t].
  - destruct (p c); reflexivity.
  - rewrite rev_app_one.
    destruct (Js.rev (String y t)) eqn:E; [| reflexivity].
    rewrite rev_cons in E. destruct (Js.rev t); discriminate E.
Qed.

Lemma all_of_drop_while (p q : ascii -> bool) (s : string) :
  all_of p s = true -> all_of p (Js.drop_while q s) = true.
Proof.
  induction s as [| c s IH]; simpl; [reflexivity |].
  intros H. apply andb_true_iff in H as [Hc Hs].
  destruct (q c); [apply IH, Hs |]. simpl. rewrite Hc, Hs. reflexivity.
Qed.

Lemma all_of_strip_end (p q : ascii -> bool) (s : string) :
  all_of p s = true -> all_of p (strip_end q s) = true.
Proof.
  induction s as [| c s IH]; simpl; [reflexivity |].
  intros H. apply andb_true_iff in H as [Hc Hs]. specialize (IH Hs).
  destruct (strip_end q s) as [| y t].
  - destruct (q c); simpl; [reflexivity | rewrite Hc; reflexivity].
  - simpl in *. rewrite Hc, IH. reflexivity.
Qed.

(** A fact about every character, by the 256 cases. *)
Ltac each_char c :=
  destruct c as [[] [] [] [] [] [] [] []]; vm_compute;
  try reflexivity; try discriminate.

Lemma kept_char_is_slug_char (c : ascii) :
  (Js.is_word (Js.lower_char c) || Js.is_space (Js.lower_char c)
   || Slug.is_hyphen (Js.lower_char c)) = true ->
  Slug.is_separator (Js.lower_char c) = false ->
  slug_char (Js.lower_char c) = true.
Proof. each_char c. Qed.

Lemma slug_char_not_upper (c : ascii) : slug_char c = true -> Js.lower_char c = c.
Proof. each_char c. Qed.

Lemma slug_char_kept (c : ascii) :
  slug_char c = true -> (Js.is_word c || Js.is_space c || Slug.is_hyphen c) = true.
Proof. each_char c. Qed.

Lemma slug_char_separator (c : ascii) :
  slug_char c = true -> Slug.is_separator c = Slug.is_hyphen c.
Proof. each_char c. Qed.

Lemma separator_not_hyphen (c : ascii) :
  Slug.is_separator c = false -> Slug.is_hyphen c = false.
Proof. each_char c. Qed.

Lemma is_hyphen_eq (c : ascii) : Slug.is_hyphen c = true -> c = "-"%char.
Proof. unfold Slug.is_hyphen. apply Ascii.eqb_eq. Qed.

Lemma hyphenate_charset (s : string) (b : bool) :
  all_of slug_char
    (Slug.hyphenate_runs b (Slug.remove_special (Js.toLowerCase s))) = true.
Proof.
  revert b. induction s as [| c s IH]; intros b; [reflexivity |].
  unfold Js.toLowerCase, Slug.remove_special in *. simpl.
  destruct (Js.is_word (Js.lower_char c) || Js.is_space (Js.lower_char c)
            || Slug.is_hyphen (Js.lower_char c)) eqn:Hk; [| apply IH].
  simpl. destruct (Slug.is_separator (Js.lower_char c)) eqn:Hs.
  - destruct b; [apply IH |]. simpl. apply IH.
  - simpl. rewrite (kept_char_is_slug_char c Hk Hs). apply IH.
Qed.

Lemma hyphenate_no_adjacent (s : string) (b : bool) :
  no_adjacent_hyphens b (Slug.hyphenate_runs b s) = true.
Proof.
  revert b. induction s as [| c s IH]; intros b; [reflexivity |]. simpl.
  destruct (Slug.is_separator c) eqn:Hs.
  - destruct b; [apply IH |]. simpl. apply IH.
  - simpl. rewrite (separator_not_hyphen c Hs). apply IH.
Qed.

Lemma no_adjacent_weaken (s : string) :
  no_adjacent_hyphens true s = true -> no_adjacent_hyphens false s = true.
Proof.
  destruct s as [| c s]; simpl; [reflexivity |].
  destruct (Slug.is_hyphen c); [discriminate | auto].
Qed.

Lemma no_adjacent_any (b : bool) (s : string) :
  no_adjacent_hyphens b s = true -> no_adjacent_hyphens false s = true.
Proof. destruct b; [apply no_adjacent_weaken | auto]. Qed.

Lemma no_adjacent_drop_while (q : ascii -> bool) (s : string) (b : bool) :
  no_adjacent_hyphens b s = true ->
  no_adjacent_hyphens false (Js.drop_while q s) = true.
Proof.
  revert b. induction s as [| c s IH]; intros b H; [reflexivity |]. simpl.
  destruct (q c).
  - simpl in H. destruct (Slug.is_hyphen c).
    + apply andb_true_iff in H as [_ H]. apply (IH true H).
    + apply (IH false H).
  - apply (no_adjacent_any b), H.
Qed.

Lemma no_adjacent_strip_end (q : ascii -> bool) (s : string) (b : bool) :
  no_adjacent_hyphens b s = true ->
  no_adjacent_hyphens b (strip_end q s) = true.
Proof.
  revert b. induction s as [| c s IH]; intros b H; [reflexivity |].
  simpl in H. simpl.
  destruct (Slug.is_hyphen c) eqn:Hc.
  - apply andb_true_iff in H as [Hb H]. specialize (IH true H).
    destruct (strip_end q s) as [| y t].
    + destruct (q c); [reflexivity |]. simpl. rewrite Hc, Hb. reflexivity.
    + simpl. rewrite Hc, Hb. exact IH.
  - specialize (IH false H).
    destruct (strip_end q s) as [| y t].
    + destruct (q c); [reflexivity |]. simpl. rewrite Hc. reflexivity.
    + simpl. rewrite Hc. exact IH.
Qed.

Lemma drop_while_hyphen_start (s : string) :
  starts_with_hyphen (Js.drop_while Slug.is_hyphen s) = false.
Proof.
  induction s as [| c s IH]; [reflexivity |]. simpl.
  destruct (Slug.is_hyphen c) eqn:Hc; [exact IH |]. simpl. exact Hc.
Qed.

Lemma strip_end_start (q : ascii -> bool) (s : string) :
  starts_with_hyphen s = false -> starts_with_hyphen (strip_end q s) = false.
Proof.
  destruct s as [| c s]; [reflexivity |]. simpl. intros Hc.
  destruct (strip_end q s); [destruct (q c); [reflexivity | exact Hc] | exact Hc].
Qed.

Lemma strip_end_hyphen_end (s : string) :
  ends_with_hyphen (strip_end Slug.is_hyphen s) = false.
Proof.
  induction s as [| c s IH]; [reflexivity |]. simpl.
  destruct (strip_end Slug.is_hyphen s) as [| y t] eqn:E.
  - destruct (Slug.is_hyphen c) eqn:Hc; [reflexivity |]. simpl. exact Hc.
  - exact IH.
Qed.

Lemma slugify_shape (text : string) : is_slug (Slug.slugify text) = true.
Proof.
  unfold is_slug, Slug.slugify, Slug.strip_hyphens.
  rewrite drop_while_end_eq.
  rewrite (all_of_strip_end _ _ _ (all_of_drop_while _ _ _ (hyphenate_charset text false))).
  rewrite (strip_end_start _ _ (drop_while_hyphen_start _)).
  rewrite strip_end_hyphen_end.
  rewrite (no_adjacent_strip_end _ _ _
             (no_adjacent_drop_while _ _ _ (hyphenate_no_adjacent _ false))).
  reflexivity.
Qed.

Lemma toLowerCase_slug (s : string) : all_of slug_char s = true -> Js.toLowerCase s = s.
Proof.
  unfold Js.toLowerCase. induction s as [| c s IH]; [reflexivity |]. simpl.
  intros H. apply andb_true_iff in H as [Hc Hs].
  rewrite (slug_char_not_upper c Hc), (IH Hs). reflexivity.
Qed.

Lemma remove_special_slug (s : string) : all_of slug_char s = true -> Slug.remove_special s = s.
Proof.
  unfold Slug.remove_special. induction s as [| c s IH]; [reflexivity |]. simpl.
  intros H. apply andb_true_iff in H as [Hc Hs].
  rewrite (slug_char_kept c Hc), (IH Hs). reflexivity.
Qed.

Lemma hyphenate_runs_slug (s : string) (b : bool) :
  all_of slug_char s = true -> no_adjacent_hyphens b s = true ->
  Slug.hyphenate_runs b s = s.
Proof.
  revert b. induction s as [| c s IH]; intros b H Hn; [reflexivity |].
  simpl in *. apply andb_true_iff in H as [Hc Hs].
  rewrite (slug_char_separator c Hc).
  destruct (Slug.is_hyphen c) eqn:Hh.
  - apply andb_true_iff in Hn as [Hb Hn]. destruct b; [discriminate Hb |].
    rewrite (IH true Hs Hn), (is_hyphen_eq c Hh). reflexivity.
  - rewrite (IH false Hs Hn). reflexivity.
Qed.

Lemma drop_while_hyphen_id (s : string) :
  starts_with_hyphen s = false -> Js.drop_while Slug.is_hyphen s = s.
Proof. destruct s as [| c s]; simpl; [reflexivity |]. intros ->. reflexivity. Qed.

Lemma strip_end_hyphen_id (s : string) :
  ends_with_hyphen s = false -> strip_end Slug.is_hyphen s = s.
Proof.
  induction s as [| c s IH]; [reflexivity |]. simpl.
  destruct s as [| y t].
  - simpl. intros ->. reflexivity.
  - intros H. rewrite (IH H). reflexivity.
Qed.

Lemma slug_fixed (s : string) : is_slug s = true -> Slug.slugify s = s.
Proof.
  unfold is_slug. intros H.
  apply andb_true_iff in H as [H Hn]. apply andb_true_iff in H as [H He].
  apply andb_true_iff in H as [Hc Hs].
  apply negb_true_iff in He, Hs.
  unfold Slug.slugify, Slug.strip_hyphens.
  rewrite (toLowerCase_slug s Hc), (remove_special_slug s Hc),
    (hyphenate_runs_slug s false Hc Hn), (drop_while_hyphen_id s Hs),
    drop_while_end_eq, (strip_end_hyphen_id s He).
  reflexivity.
Qed.

(** X1. What [slugify] returns is made of lower-case letters, digits and
    hyphens; it neither starts nor ends with a hyphen, and has no two
    hyphens in a row. *)
Theorem slugify_is_slug (text : string) :
  all_of slug_char (Slug.slugify text) = true /\
  starts_with_hyphen (Slug.slugify text) = false /\
  ends_with_hyphen (Slug.slugify text) = false /\
  no_adjacent_hyphens false (Slug.slugify text) = true.
Proof.
  pose proof (slugify_shape text) as H. unfold is_slug in H.
  apply andb_true_iff in H as [H Hn]. apply andb_true_iff in H as [H He].
  apply andb_true_iff in H as [Hc Hs]. apply negb_true_iff in He, Hs. auto.
Qed.

(** X2. A string that has the shape of a slug is returned as it is. *)
Theorem slugify_fixes_slugs (s : string) : is_slug s = true -> Slug.slugify s = s.
Proof. exact (slug_fixed s). Qed.

(** X3. Slugifying twice is slugifying once. *)
Theorem slugify_idempotent (text : string) :
  Slug.slugify (Slug.slugify text) = Slug.slugify text.
Proof. apply slug_fixed, slugify_shape. Qed.

(** ** lib/normalize.ts : what the hours parser emits *)

Module HoursFacts.

Import Regex RegexSemantics.

Lemma run_sound (r : Regex.t) :
  forall s caps k c,
    run r s caps k = Some c ->
    exists s' caps', matches r s caps s' caps' /\ k s' caps' = Some c.
Proof.
  induction r as [| p | l | a IHa b IHb | a IHa b IHb | a IHa | a IHa | n a IHa];
    intros s caps k c H; simpl in H.
  - exists s, caps. split; [constructor | exact H].
  - destruct s as [| x s]; [discriminate |].
    destruct (p x) eqn:Hp; [| discriminate].
    exists s, caps. split; [constructor; exact Hp | exact H].
  - destruct (strip_prefix_ci l s) as [s' |] eqn:Hl; [| discriminate].
    exists s', caps. split; [constructor; exact Hl | exact H].
  - apply IHa in H as [s1 [caps1 [Ha H]]].
    apply IHb in H as [s2 [caps2 [Hb H]]].
    exists s2, caps2. split; [econstructor; eassumption | exact H].
  - destruct (run a s caps k) as [c0 |] eqn:Ha.
    + injection H as <-. apply IHa in Ha as [s' [caps' [Ha Hk]]].
      exists s', caps'. split; [apply m_alt_l; exact Ha | exact Hk].
    + apply IHb in H as [s' [caps' [Hb Hk]]].
      exists s', caps'. split; [apply m_alt_r; exact Hb | exact Hk].
  - remember (String.length s) as n eqn:En. clear En.
    revert s caps H. induction n as [| n IHn]; intros s caps H.
    + exists s, caps. split; [apply m_star_done | exact H].
    + match type of H with
      | match ?m with _ => _ end = _ => destruct m as [c0 |] eqn:Ha
      end.
      * injection H as <-. apply IHa in Ha as [s1 [caps1 [Ha Hk]]].
        destruct (progress s s1); [| discriminate].
        apply IHn in Hk as [s2 [caps2 [Hs Hk]]].
        exists s2, caps2. split; [eapply m_star_more; eassumption | exact Hk].
      * exists s, caps. split; [apply m_star_done | exact H].
  - match type of H with
    | match ?m with _ => _ end = _ => destruct m as [c0 |] eqn:Ha
    end.
    + injection H as <-. apply IHa in Ha as [s1 [caps1 [Ha Hk]]].
      destruct (progress s s1); [| discriminate].
      exists s1, caps1. split; [apply m_opt_some; exact Ha | exact Hk].
    + exists s, caps. split; [apply m_opt_none | exact H].
  - apply IHa in H as [s' [caps' [Ha Hk]]].
    exists s', ((n, consumed s s') :: caps'). split; [constructor; exact Ha | exact Hk].
Qed.

Lemma exec_sound (r : Regex.t) (s : string) (m : captures) :
  exec r s = Some m ->
  exists s0 s' caps',
    matches r s0 [] s' caps' /\ m = (0%nat, consumed s0 s') :: caps'.
Proof.
  induction s as [| x s IH]; simpl.
  - destruct (run r "" [] _) as [c |] eqn:Hr; [| discriminate].
    intros H. injection H as <-.
    apply run_sound in Hr as [s' [caps' [Hm Hk]]].
    injection Hk as <-. exists "", s', caps'. split; [exact Hm | reflexivity].
  - destruct (run r (String x s) [] _) as [c |] eqn:Hr.
    + intros H. injection H as <-.
      apply run_sound in Hr as [s' [caps' [Hm Hk]]].
      injection Hk as <-. exists (String x s), s', caps'. split; [exact Hm | reflexivity].
    + exact IH.
Qed.

Lemma strip_prefix_ci_spec (l s s' : string) :
  strip_prefix_ci l s = Some s' ->
  exists pre, s = pre ++ s' /\ Js.toLowerCase pre = Js.toLowerCase l.
Proof.
  revert s. induction l as [| a l IH]; intros s H; simpl in H.
  - injection H as <-. exists "". split; reflexivity.
  - destruct s as [| c s]; [discriminate |].
    destruct (Ascii.eqb (Js.lower_char a) (Js.lower_char c)) eqn:E; [| discriminate].
    apply Ascii.eqb_eq in E. apply IH in H as [pre [-> Hl]].
    exists (String c pre). split; [reflexivity |].
    unfold Js.toLowerCase in *. simpl. rewrite Hl, E. reflexivity.
Qed.

Lemma matches_suffix r s caps s' caps' :
  matches r s caps s' caps' -> exists pre, s = pre ++ s'.
Proof.
  induction 1.
  - exists "". reflexivity.
  - exists (String c ""). reflexivity.
  - apply strip_prefix_ci_spec in H as [pre [-> _]]. exists pre. reflexivity.
  - destruct IHmatches1 as [p1 ->]. destruct IHmatches2 as [p2 ->].
    exists (p1 ++ p2). rewrite append_assoc. reflexivity.
  - assumption.
  - assumption.
  - assumption.
  - exists "". reflexivity.
  - destruct IHmatches1 as [p1 ->]. destruct IHmatches2 as [p2 ->].
    exists (p1 ++ p2). rewrite append_assoc. reflexivity.
  - exists "". reflexivity.
  - assumption.
Qed.

Lemma length_append (a b : string) :
  String.length (a ++ b) = (String.length a + String.length b)%nat.
Proof. induction a as [| c a IH]; simpl; [reflexivity | rewrite IH; reflexivity]. Qed.

Lemma substring_prefix (a b : string) : String.substring 0 (String.length a) (a ++ b) = a.
Proof.
  induction a as [| c a IH]; simpl.
  - destruct b; reflexivity.
  - rewrite IH. reflexivity.
Qed.

Lemma consumed_app (pre s' : string) : consumed (pre ++ s') s' = pre.
Proof.
  unfold consumed. rewrite length_append.
  replace (String.length pre + String.length s' - String.length s')%nat
    with (String.length pre) by lia.
  apply substring_prefix.
Qed.

Lemma matches_groupless r s caps s' caps' :
  matches r s caps s' caps' -> groupless r = true -> caps' = caps.
Proof.
  induction 1; simpl; intros G; try reflexivity;
    try (apply andb_true_iff in G as [G1 G2]); auto.
  - rewrite (IHmatches2 G2). auto.
  - rewrite (IHmatches2 G). auto.
  - discriminate.
Qed.

Lemma matches_seq_inv a b s caps s2 caps2 :
  matches (Seq a b) s caps s2 caps2 ->
  exists s1 caps1, matches a s caps s1 caps1 /\ matches b s1 caps1 s2 caps2.
Proof. inversion 1; subst. eauto. Qed.

Lemma matches_group_inv n a s caps s' caps' :
  matches (Group n a) s caps s' caps' ->
  exists caps1, matches a s caps s' caps1 /\ caps' = (n, consumed s s') :: caps1.
Proof. inversion 1; subst. eauto. Qed.

Lemma matches_eps_inv s caps s' caps' :
  matches Eps s caps s' caps' -> s' = s /\ caps' = caps.
Proof. inversion 1; subst. auto. Qed.

Lemma matches_alt_lits ls s caps s' caps' :
  matches (alt_lits ls) s caps s' caps' ->
  caps' = caps /\ exists l, In l ls /\ strip_prefix_ci l s = Some s'.
Proof.
  induction ls as [| l ls IH]; simpl.
  - inversion 1; subst. discriminate.
  - destruct ls as [| l2 ls].
    + inversion 1; subst. split; [reflexivity |]. exists l. split; [left; reflexivity | assumption].
    + inversion 1; subst.
      * match goal with H : matches (Lit _) _ _ _ _ |- _ => inversion H; subst end.
        split; [reflexivity |]. exists l. split; [left; reflexivity | assumption].
      * match goal with H : matches _ _ _ _ _ |- _ => apply IH in H as [-> [l' [Hin Hl]]] end.
        split; [reflexivity |]. exists l'. split; [right; exact Hin | exact Hl].
Qed.

Lemma is_space_lower (c : ascii) : Js.is_space (Js.lower_char c) = Js.is_space c.
Proof. each_char c. Qed.

Lemma digit_not_space (c : ascii) : Js.is_digit c = true -> Js.is_space c = false.
Proof. each_char c. Qed.

Lemma solid_lower (s : string) : solid (Js.toLowerCase s) = solid s.
Proof. destruct s as [| c s]; [reflexivity |]. simpl. rewrite is_space_lower. reflexivity. Qed.

Lemma solid_truthy (s : string) : solid s = true -> Js.truthy s = true.
Proof. destruct s; [discriminate | reflexivity]. Qed.

Lemma solid_normalizeTime (s : string) :
  solid s = true -> Normalize.normalizeTime s <> "".
Proof.
  intros H.
  assert (E : Normalize.normalizeTime s = Js.toLowerCase (Js.trim s)).
  { unfold Normalize.normalizeTime. destruct (_ || _); reflexivity. }
  rewrite E. unfold Js.trim. rewrite drop_while_end_eq.
  destruct s as [| c s]; [discriminate |]. simpl in H.
  apply negb_true_iff in H. simpl. rewrite H. simpl.
  destruct (strip_end Js.is_space s); [rewrite H |]; discriminate.
Qed.

(** The result of matching [day_names]: the text matched is one of the
    names, up to case. *)
Lemma matches_day s caps s' caps' :
  matches Normalize.re_day s caps s' caps' ->
  caps' = caps /\
  exists d, s = d ++ s' /\ In (Js.toLowerCase d) Normalize.day_names.
Proof.
  intros H. apply matches_alt_lits in H as [-> [l [Hin Hl]]].
  split; [reflexivity |].
  apply strip_prefix_ci_spec in Hl as [pre [-> Hlow]].
  exists pre. split; [reflexivity |]. rewrite Hlow.
  assert (Hl : Js.toLowerCase l = l).
  { simpl in Hin. repeat (destruct Hin as [<- | Hin]; [reflexivity |]). destruct Hin. }
  rewrite Hl. exact Hin.
Qed.

Lemma day_solid (d : string) : In (Js.toLowerCase d) Normalize.day_names -> solid d = true.
Proof.
  intros Hin. rewrite <- solid_lower.
  simpl in Hin. repeat (destruct Hin as [<- | Hin]; [reflexivity |]). destruct Hin.
Qed.

Lemma matches_char_inv p s caps s' caps' :
  matches (Char p) s caps s' caps' ->
  exists c, s = String c s' /\ p c = true /\ caps' = caps.
Proof. inversion 1; subst. eauto. Qed.

Lemma matches_ampm n s caps s' caps' :
  matches (Opt (Group n (Alt (Lit "am") (Lit "pm")))) s caps s' caps' ->
  caps' = caps \/ exists a, caps' = (n, a) :: caps /\ solid a = true.
Proof.
  inversion 1 as [| | | | | | a0 s0 c0 s0' c0' Hg | | | |]; subst; [| left; reflexivity].
  right. apply matches_group_inv in Hg as [cg [Hg ->]].
  assert (Hl : exists l, (l = "am" \/ l = "pm") /\ cg = caps /\
                         strip_prefix_ci l s = Some s').
  { inversion Hg as [| | | | a1 b1 s1 c1 s1' c1' Hlit | a1 b1 s1 c1 s1' c1' Hlit | | | | |];
      subst; inversion Hlit; subst; eauto 6. }
  destruct Hl as [l [Hl [-> Hp]]].
  apply strip_prefix_ci_spec in Hp as [pre [-> Hlow]].
  exists pre. rewrite consumed_app. split; [reflexivity |].
  rewrite <- solid_lower, Hlow. destruct Hl as [-> | ->]; reflexivity.
Qed.

(** The result of matching a time: the text matched starts with a digit,
    and at most the group [n] is added, holding [am] or [pm] up to
    case. *)
Lemma matches_time n s caps s' caps' :
  matches (Normalize.re_time n) s caps s' caps' ->
  (exists t, s = t ++ s' /\ solid t = true) /\
  (caps' = caps \/ exists a, caps' = (n, a) :: caps /\ solid a = true).
Proof.
  unfold Normalize.re_time, seq. simpl. intros H.
  apply matches_seq_inv in H as [s1 [c1 [H1 H]]].
  apply matches_char_inv in H1 as [c [-> [Hc ->]]].
  split.
  - apply matches_suffix in H as [pre ->].
    exists (String c pre). split; [reflexivity |]. simpl.
    rewrite (digit_not_space c Hc). reflexivity.
  - apply matches_seq_inv in H as [s2 [c2 [H2 H]]].
    apply matches_groupless in H2 as ->; [| reflexivity].
    apply matches_seq_inv in H as [s3 [c3 [H3 H]]].
    apply matches_groupless in H3 as ->; [| reflexivity].
    apply matches_seq_inv in H as [s4 [c4 [H4 H]]].
    apply matches_groupless in H4 as ->; [| reflexivity].
    apply matches_seq_inv in H as [s5 [c5 [H5 H]]].
    apply matches_groupless in H5 as ->; [| reflexivity].
    apply matches_seq_inv in H as [s6 [c6 [H6 H]]].
    apply matches_groupless in H6 as ->; [| reflexivity].
    apply matches_seq_inv in H as [s7 [c7 [H7 H]]].
    apply matches_eps_inv in H as [-> ->].
    apply matches_ampm in H7. exact H7.
Qed.

Lemma matches_day_group n s caps s' caps' :
  matches (Group n Normalize.re_day) s caps s' caps' ->
  exists d, caps' = (n, d) :: caps /\ In (Js.toLowerCase d) Normalize.day_names.
Proof.
  intros H. apply matches_group_inv in H as [cg [H ->]].
  apply matches_day in H as [-> [d [-> Hin]]].
  exists d. rewrite consumed_app. split; [reflexivity | exact Hin].
Qed.

Lemma matches_time_group n k s caps s' caps' :
  matches (Group n (Normalize.re_time k)) s caps s' caps' ->
  exists t, solid t = true /\
    (caps' = (n, t) :: caps \/
     exists a, caps' = (n, t) :: (k, a) :: caps /\ solid a = true).
Proof.
  intros H. apply matches_group_inv in H as [cg [H ->]].
  apply matches_time in H as [[t [-> Ht]] Hc].
  exists t. rewrite consumed_app. split; [exact Ht |].
  destruct Hc as [-> | [a [-> Ha]]]; [left; reflexivity | right; eauto].
Qed.

(** The groups after a match of the first pattern. *)
Lemma pattern_single_day_groups s0 s' caps' :
  matches Normalize.pattern_single_day s0 [] s' caps' ->
  exists d t1 t2,
    In (Js.toLowerCase d) Normalize.day_names /\ solid t1 = true /\ solid t2 = true /\
    forall whole,
      group 1 ((0%nat, whole) :: caps') = Some d /\
      group 2 ((0%nat, whole) :: caps') = Some t1 /\
      group 4 ((0%nat, whole) :: caps') = Some t2.
Proof.
  unfold Normalize.pattern_single_day, seq. simpl. intros H.
  apply matches_seq_inv in H as [s1 [c1 [H1 H]]].
  apply matches_day_group in H1 as [d [-> Hd]].
  apply matches_seq_inv in H as [s2 [c2 [H2 H]]].
  apply matches_groupless in H2 as ->; [| reflexivity].
  apply matches_seq_inv in H as [s3 [c3 [H3 H]]].
  apply matches_time_group in H3 as [t1 [Ht1 Hc3]].
  apply matches_seq_inv in H as [s4 [c4 [H4 H]]].
  apply matches_groupless in H4 as ->; [| reflexivity].
  apply matches_seq_inv in H as [s5 [c5 [H5 H]]].
  apply matches_time_group in H5 as [t2 [Ht2 Hc5]].
  apply matches_eps_inv in H as [-> ->].
  exists d, t1, t2. repeat (split; [assumption |]). intros whole.
  destruct Hc3 as [-> | [a [-> _]]]; destruct Hc5 as [-> | [b [-> _]]];
    repeat split; reflexivity.
Qed.

(** The groups after a match of the second pattern. *)
Lemma pattern_day_range_groups s0 s' caps' :
  matches Normalize.pattern_day_range s0 [] s' caps' ->
  exists d1 d2 t1 t2,
    In (Js.toLowerCase d1) Normalize.day_names /\
    In (Js.toLowerCase d2) Normalize.day_names /\
    solid t1 = true /\ solid t2 = true /\
    forall whole,
      group 1 ((0%nat, whole) :: caps') = Some d1 /\
      group 2 ((0%nat, whole) :: caps') = Some d2 /\
      (group 4 ((0%nat, whole) :: caps') = None \/
       exists a, group 4 ((0%nat, whole) :: caps') = Some a /\ solid a = true) /\
      group 5 ((0%nat, whole) :: caps') = Some t2.
Proof.
  unfold Normalize.pattern_day_range, seq. simpl. intros H.
  apply matches_seq_inv in H as [s1 [c1 [H1 H]]].
  apply matches_day_group in H1 as [d1 [-> Hd1]].
  apply matches_seq_inv in H as [s2 [c2 [H2 H]]].
  apply matches_groupless in H2 as ->; [| reflexivity].
  apply matches_seq_inv in H as [s2' [c2' [H2' H]]].
  apply matches_day_group in H2' as [d2 [-> Hd2]].
  apply matches_seq_inv in H as [s3' [c3' [H3' H]]].
  apply matches_groupless in H3' as ->; [| reflexivity].
  apply matches_seq_inv in H as [s3 [c3 [H3 H]]].
  apply matches_time_group in H3 as [t1 [Ht1 Hc3]].
  apply matches_seq_inv in H as [s4 [c4 [H4 H]]].
  apply matches_groupless in H4 as ->; [| reflexivity].
  apply matches_seq_inv in H as [s5 [c5 [H5 H]]].
  apply matches_time_group in H5 as [t2 [Ht2 Hc5]].
  apply matches_eps_inv in H as [-> ->].
  exists d1, d2, t1, t2. repeat (split; [assumption |]). intros whole.
  destruct Hc3 as [-> | [a [-> Ha]]].
  - destruct Hc5 as [-> | [b [-> _]]];
      (split; [reflexivity |]); (split; [reflexivity |]);
      (split; [left; reflexivity | reflexivity]).
  - destruct Hc5 as [-> | [b [-> _]]];
      (split; [reflexivity |]); (split; [reflexivity |]);
      (split; [right; exists a; split; [reflexivity | exact Ha] | reflexivity]).
Qed.

Lemma day_labels_eq : day_labels = map Normalize.capitalize Normalize.day_names.
Proof. reflexivity. Qed.

Lemma or_group_solid (a : string) (b : option string) :
  solid a = true -> Normalize.or_group (Some a) b = Some a.
Proof. intros H. unfold Normalize.or_group. simpl. rewrite (solid_truthy a H). reflexivity. Qed.

Lemma entry_well_formed (d o c : string) :
  In (Js.toLowerCase d) Normalize.day_names -> solid o = true -> solid c = true ->
  hour_well_formed
    (Hour.mk (Normalize.capitalize (Js.toLowerCase d))
       (Normalize.normalizeTime o) (Normalize.normalizeTime c)).
Proof.
  intros Hd Ho Hc. split; [| split]; cbn [Hour.day Hour.open Hour.close].
  - rewrite day_labels_eq. apply in_map. exact Hd.
  - apply solid_normalizeTime, Ho.
  - apply solid_normalizeTime, Hc.
Qed.

Lemma first_entry_well_formed (line : string) (h : Hour.t) :
  Normalize.first_entry Normalize.patterns line = Some h -> hour_well_formed h.
Proof.
  unfold Normalize.patterns. cbn [Normalize.first_entry].
  destruct (exec Normalize.pattern_single_day line) as [m |] eqn:E1.
  - apply exec_sound in E1 as [s0 [s' [caps' [Hm ->]]]].
    apply pattern_single_day_groups in Hm as [d [t1 [t2 [Hd [Ht1 [Ht2 Hg]]]]]].
    destruct (Hg (consumed s0 s')) as [G1 [G2 G4]].
    rewrite G1, G2, G4, (or_group_solid t1 _ Ht1), (or_group_solid t2 _ Ht2).
    rewrite (solid_truthy t1 Ht1), (solid_truthy t2 Ht2). simpl.
    intros H. injection H as <-. apply entry_well_formed; assumption.
  - destruct (exec Normalize.pattern_day_range line) as [m |] eqn:E2; [| discriminate].
    apply exec_sound in E2 as [s0 [s' [caps' [Hm ->]]]].
    apply pattern_day_range_groups in Hm
      as [d1 [d2 [t1 [t2 [Hd1 [Hd2 [Ht1 [Ht2 Hg]]]]]]]].
    destruct (Hg (consumed s0 s')) as [G1 [G2 [G4 G5]]].
    pose proof (day_solid d2 Hd2) as Hs2.
    rewrite G1, G2, G5, (or_group_solid d2 _ Hs2), (solid_truthy d2 Hs2).
    destruct G4 as [-> | [a [-> Ha]]].
    + unfold Normalize.or_group at 1. simpl.
      rewrite (solid_truthy t2 Ht2). simpl.
      intros H. injection H as <-. apply entry_well_formed; assumption.
    + rewrite (or_group_solid a _ Ha), (solid_truthy a Ha). simpl.
      intros H. injection H as <-. apply entry_well_formed; assumption.
Qed.

Lemma flat_map_entries (lines : list string) :
  let hours := flat_map (fun line =>
                 match Normalize.first_entry Normalize.patterns line with
                 | Some h => [h]
                 | None => []
                 end) lines in
  Forall hour_well_formed hours /\ (length hours <= length lines)%nat.
Proof.
  induction lines as [| line lines [IHF IHL]]; cbn [flat_map].
  - split; [constructor | apply le_n].
  - destruct (Normalize.first_entry Normalize.patterns line) as [h |] eqn:E;
      cbn [app length] in *.
    + split; [constructor; [exact (first_entry_well_formed line h E) | exact IHF] | lia].
    + split; [exact IHF | lia].
Qed.

(** X6. Whenever [parseHours] returns a list, the list is not empty and has at
    most one entry for each non-empty line of the text; the day of every
    entry is one of the fourteen labels [Monday] ... [Sun], whatever the
    case of the source text, and its open and close times are not
    empty. *)
Theorem parseHours_entries (hoursString : option string) (hours : list Hour.t) :
  Normalize.parseHours hoursString = Some hours ->
  hours <> [] /\
  Forall hour_well_formed hours /\
  exists s, hoursString = Some s /\
    (length hours <= length (Normalize.hour_lines s))%nat.
Proof.
  unfold Normalize.parseHours.
  destruct hoursString as [s |]; [| discriminate].
  destruct (Js.truthy s); [| discriminate].
  pose proof (flat_map_entries (Normalize.hour_lines s)) as [HF HL].
  cbv zeta in HF, HL.
  destruct (flat_map _ (Normalize.hour_lines s)) as [| h0 hs]; [discriminate |].
  intros H. injection H as <-.
  split; [discriminate |]. split; [exact HF |].
  exists s. split; [reflexivity | exact HL].
Qed.

Lemma all_of_app (p : ascii -> bool) (a b : string) :
  all_of p (a ++ b) = all_of p a && all_of p b.
Proof.
  induction a as [| c a IH]; simpl; [reflexivity |].
  rewrite IH, andb_assoc. reflexivity.
Qed.

Lemma exec_suffix (r : Regex.t) (s : string) (m : captures) :
  exec r s = Some m ->
  exists pre s0 s' caps', s = pre ++ s0 /\ matches r s0 [] s' caps'.
Proof.
  induction s as [| x s IH]; simpl.
  - destruct (run r "" [] _) as [c |] eqn:Hr; [| discriminate].
    intros _. apply run_sound in Hr as [s' [caps' [Hm _]]].
    exists "", "", s', caps'. split; [reflexivity | exact Hm].
  - destruct (run r (String x s) [] _) as [c |] eqn:Hr.
    + intros _. apply run_sound in Hr as [s' [caps' [Hm _]]].
      exists "", (String x s), s', caps'. split; [reflexivity | exact Hm].
    + intros H. apply IH in H as [pre [s0 [s' [caps' [-> Hm]]]]].
      exists (String x pre), s0, s', caps'. split; [reflexivity | exact Hm].
Qed.

Lemma lower_colon (c : ascii) : Js.lower_char ":" = Js.lower_char c -> c = ":"%char.
Proof. each_char c. Qed.

Lemma matches_colon s caps s' caps' :
  matches (Lit ":") s caps s' caps' -> s = String ":" s'.
Proof.
  inversion 1 as [| | l0 s0 s0' c0 Hl | | | | | | | |]; subst.
  destruct s as [| c s]; [discriminate |].
  cbn [strip_prefix_ci] in Hl.
  destruct (Ascii.eqb (Js.lower_char ":") (Js.lower_char c)) eqn:E; [| discriminate].
  apply Ascii.eqb_eq, lower_colon in E. injection Hl as ->. rewrite E. reflexivity.
Qed.

Lemma matches_time_colon n s caps s' caps' :
  matches (Normalize.re_time n) s caps s' caps' -> all_of not_colon s = false.
Proof.
  unfold Normalize.re_time, seq. simpl. intros H.
  apply matches_seq_inv in H as [s1 [c1 [H1 H]]].
  apply matches_char_inv in H1 as [c [-> _]].
  apply matches_seq_inv in H as [s2 [c2 [H2 H]]].
  apply matches_suffix in H2 as [pre ->].
  apply matches_seq_inv in H as [s3 [c3 [H3 _]]].
  apply matches_colon in H3 as ->.
  simpl. rewrite all_of_app. simpl.
  rewrite andb_false_r. apply andb_false_r.
Qed.

Lemma all_of_suffix_false (p : ascii -> bool) (pre s : string) :
  all_of p s = false -> all_of p (pre ++ s) = false.
Proof. intros H. rewrite all_of_app, H. apply andb_false_r. Qed.

Lemma matches_time_group_colon n k s caps s' caps' :
  matches (Group n (Normalize.re_time k)) s caps s' caps' -> all_of not_colon s = false.
Proof.
  intros H. apply matches_group_inv in H as [cg [H _]].
  exact (matches_time_colon _ _ _ _ _ H).
Qed.

Lemma pattern_single_day_colon s0 s' caps' :
  matches Normalize.pattern_single_day s0 [] s' caps' -> all_of not_colon s0 = false.
Proof.
  unfold Normalize.pattern_single_day, seq. simpl. intros H.
  apply matches_seq_inv in H as [s1 [c1 [H1 H]]].
  apply matches_suffix in H1 as [p1 ->].
  apply matches_seq_inv in H as [s2 [c2 [H2 H]]].
  apply matches_suffix in H2 as [p2 ->].
  apply matches_seq_inv in H as [s3 [c3 [H3 _]]].
  apply matches_time_group_colon in H3.
  apply all_of_suffix_false, all_of_suffix_false, H3.
Qed.

Lemma pattern_day_range_colon s0 s' caps' :
  matches Normalize.pattern_day_range s0 [] s' caps' -> all_of not_colon s0 = false.
Proof.
  unfold Normalize.pattern_day_range, seq. simpl. intros H.
  apply matches_seq_inv in H as [s1 [c1 [H1 H]]].
  apply matches_suffix in H1 as [p1 ->].
  apply matches_seq_inv in H as [s2 [c2 [H2 H]]].
  apply matches_suffix in H2 as [p2 ->].
  apply matches_seq_inv in H as [s3 [c3 [H3 H]]].
  apply matches_suffix in H3 as [p3 ->].
  apply matches_seq_inv in H as [s4 [c4 [H4 H]]].
  apply matches_suffix in H4 as [p4 ->].
  apply matches_seq_inv in H as [s5 [c5 [H5 _]]].
  apply matches_time_group_colon in H5.
  do 4 apply all_of_suffix_false. exact H5.
Qed.

Lemma first_entry_colon (line : string) :
  all_of not_colon line = true ->
  Normalize.first_entry Normalize.patterns line = None.
Proof.
  intros Hline. unfold Normalize.patterns. cbn [Normalize.first_entry].
  destruct (exec Normalize.pattern_single_day line) as [m |] eqn:E1.
  - apply exec_suffix in E1 as [pre [s0 [s' [caps' [-> Hm]]]]].
    apply pattern_single_day_colon in Hm.
    rewrite (all_of_suffix_false _ pre s0 Hm) in Hline. discriminate.
  - destruct (exec Normalize.pattern_day_range line) as [m |] eqn:E2; [| reflexivity].
    apply exec_suffix in E2 as [pre [s0 [s' [caps' [-> Hm]]]]].
    apply pattern_day_range_colon in Hm.
    rewrite (all_of_suffix_false _ pre s0 Hm) in Hline. discriminate.
Qed.

Lemma all_of_split_on (p : ascii -> bool) (sep : ascii) (s : string) :
  all_of p s = true -> Forall (fun x => all_of p x = true) (Js.split_on sep s).
Proof.
  induction s as [| c s IH]; simpl.
  - intros _. constructor; [reflexivity | constructor].
  - intros H. apply andb_true_iff in H as [Hc Hs]. specialize (IH Hs).
    destruct (Ascii.eqb c sep).
    + constructor; [reflexivity | exact IH].
    + destruct (Js.split_on sep s) as [| w ws].
      * constructor; [simpl; rewrite Hc; reflexivity | constructor].
      * inversion IH; subst. constructor; [simpl; rewrite Hc; assumption | assumption].
Qed.

Lemma all_of_trim (p : ascii -> bool) (s : string) :
  all_of p s = true -> all_of p (Js.trim s) = true.
Proof.
  intros H. unfold Js.trim. rewrite drop_while_end_eq.
  apply all_of_strip_end, all_of_drop_while, H.
Qed.

Lemma all_of_hour_lines (p : ascii -> bool) (s : string) :
  all_of p s = true -> Forall (fun x => all_of p x = true) (Normalize.hour_lines s).
Proof.
  intros H. unfold Normalize.hour_lines.
  apply Forall_forall. intros x Hx.
  apply filter_In in Hx as [Hx _]. apply in_map_iff in Hx as [y [<- Hy]].
  apply all_of_trim.
  pose proof (all_of_split_on p "010"%char s H) as HF.
  rewrite Forall_forall in HF. apply HF, Hy.
Qed.

(** X7. A text without a colon yields no hours: both patterns want every
    time written as hours, a colon and two digits of minutes. *)
Theorem parseHours_needs_colon (s : string) :
  all_of not_colon s = true -> Normalize.parseHours (Some s) = None.
Proof.
  intros H. unfold Normalize.parseHours.
  destruct (Js.truthy s); [| reflexivity].
  pose proof (all_of_hour_lines not_colon s H) as HF.
  assert (E : flat_map (fun line =>
                match Normalize.first_entry Normalize.patterns line with
                | Some h => [h]
                | None => []
                end) (Normalize.hour_lines s) = []).
  { induction HF as [| line lines Hl _ IH]; [reflexivity |].
    cbn [flat_map]. rewrite (first_entry_colon line Hl), IH. reflexivity. }
  rewrite E. reflexivity.
Qed.

End HoursFacts.

(** ** lib/rewrite.ts and lib/schema.ts *)

Lemma ask_model_ok_inv (w : World) (raw validated : RestaurantSite.t) :
  outcome (Rewrite.ask_model w raw) = Ok validated ->
  response_accepted (chat_completion w raw) validated.
Proof.
  unfold Rewrite.ask_model, response_accepted.
  destruct (chat_completion w raw) as [e | [content |]]; try discriminate.
  destruct content as [| c content']; [discriminate |].
  simpl. unfold lift.
  destruct (Json.parse (String c content')) as [cleaned | e] eqn:Hp; [| discriminate].
  simpl. destruct (Schema.RestaurantSite cleaned) as [v | e] eqn:Hv; [| discriminate].
  simpl. intros H. injection H as <-.
  exists (String c content'), cleaned. repeat split; assumption.
Qed.

Lemma rewriteContent_cases (w : World) (raw : RestaurantSite.t) :
  exists site,
    outcome (Rewrite.rewriteContent w raw) = Ok site /\
    (site = raw \/
     (Js.truthy_opt (env_OPENAI_API_KEY w) = true /\
      response_accepted (chat_completion w raw) site)).
Proof.
  unfold Rewrite.rewriteContent.
  destruct (Js.truthy_opt (env_OPENAI_API_KEY w)) eqn:Hk; simpl.
  - destruct (Rewrite.ask_model w raw) as [ev [v | e]] eqn:Ha.
    + exists v. split; [reflexivity |]. right. split; [reflexivity |].
      apply ask_model_ok_inv. rewrite Ha. reflexivity.
    + exists raw. split; [reflexivity | left; reflexivity].
  - exists raw. split; [reflexivity | left; reflexivity].
Qed.

(** X9. [rewriteContent] never throws.  What it returns is the record it was
    given, or, when a credential is configured, the record that the schema
    made of an accepted reply. *)
Theorem rewriteContent_total (w : World) (raw : RestaurantSite.t) :
  exists site,
    outcome (Rewrite.rewriteContent w raw) = Ok site /\
    (site = raw \/
     (Js.truthy_opt (env_OPENAI_API_KEY w) = true /\
      response_accepted (chat_completion w raw) site)).
Proof. exact (rewriteContent_cases w raw). Qed.

Lemma emap_Forall2 {A B} (f : A -> Exc B) (l : list A) (l' : list B) :
  emap f l = Ok l' -> Forall2 (fun a b => f a = Ok b) l l'.
Proof.
  revert l'. induction l as [| a l IH]; intros l' H; simpl in H.
  - injection H as <-. constructor.
  - apply ebind_ok_inv in H as [b [Hb H]].
    apply ebind_ok_inv in H as [bs [Hbs H]]. injection H as <-.
    constructor; [exact Hb | apply IH, Hbs].
Qed.

Lemma Review_in_bounds (j : Json.value) (r : Review.t) :
  Schema.Review j = Ok r -> rating_in_bounds r.
Proof.
  unfold Schema.Review, Zod.object. destruct j as [| | | | | o]; try discriminate.
  intros H.
  repeat (apply ebind_ok_inv in H; destruct H as (? & ? & H); cbv beta in H).
  injection H as <-. unfold rating_in_bounds. simpl. intros q ->.
  match goal with H : Zod.optional _ "rating" _ = Ok (Some q) |- _ => rename H into Hr end.
  unfold Zod.optional in Hr. destruct (Json.lookup "rating" o) as [jr |]; [| discriminate].
  apply ebind_ok_inv in Hr as [q' [Hq Hr]]. injection Hr as ->.
  unfold Zod.min_max in Hq. apply ebind_ok_inv in Hq as [q0 [_ Hq]].
  destruct (Qle_bool 1 q0 && Qle_bool q0 5) eqn:Hb; [| discriminate].
  injection Hq as ->. apply andb_true_iff in Hb as [Hlo Hhi].
  split; apply Qle_bool_iff; assumption.
Qed.

Lemma required_url_parses (key : string) (o : list (string * Json.value)) (s : string) :
  Zod.required Zod.url key o = Ok s -> exists u, Url.parse s = Ok u.
Proof.
  unfold Zod.required, Zod.url, Zod.string_.
  destruct (Json.lookup key o) as [[] |]; try discriminate. simpl.
  destruct (Url.parse s0) as [u | e] eqn:Hu; try discriminate.
  intros H. injection H as <-. exists u. exact Hu.
Qed.

Lemma validated_invariants (cleaned : Json.value) (validated : RestaurantSite.t) :
  Schema.RestaurantSite cleaned = Ok validated ->
  (forall reviews, RestaurantSite.reviews validated = Some reviews ->
     Forall rating_in_bounds reviews) /\
  (exists u, Url.parse (RestaurantSite.sourceUrl validated) = Ok u) /\
  has_required_keys cleaned.
Proof.
  unfold Schema.RestaurantSite, Zod.object.
  destruct cleaned as [| | | | | o]; try discriminate.
  intros H.
  repeat (apply ebind_ok_inv in H; destruct H as (? & ? & H); cbv beta in H).
  injection H as <-. simpl. split; [| split].
  - intros reviews ->.
    match goal with H : Zod.optional _ "reviews" _ = Ok _ |- _ => rename H into Hr end.
    unfold Zod.optional in Hr. destruct (Json.lookup "reviews" o) as [jr |]; [| discriminate].
    apply ebind_ok_inv in Hr as [l [Hl Hr]]. injection Hr as ->.
    unfold Zod.array in Hl. destruct jr; try discriminate.
    apply emap_Forall2 in Hl.
    induction Hl as [| j r js rs Hj _ IH]; constructor; [| exact IH].
    exact (Review_in_bounds j r Hj).
  - eapply required_url_parses. eassumption.
  - exists o. split; [reflexivity |].
    repeat split; eexists;
      eauto using required_string_inv, required_url_inv.
Qed.

(** X11. A record that comes out of [RestaurantSite.parse] has every review
    rating between 1 and 5 and a source URL that parses, and it was made
    from a JSON object that has the keys [slug], [name], [sourceUrl] and
    [lastScrapedAt] with string values. *)
Theorem RestaurantSite_validated_invariants
    (cleaned : Json.value) (validated : RestaurantSite.t) :
  Schema.RestaurantSite cleaned = Ok validated ->
  (forall reviews, RestaurantSite.reviews validated = Some reviews ->
     Forall rating_in_bounds reviews) /\
  (exists u, Url.parse (RestaurantSite.sourceUrl validated) = Ok u) /\
  has_required_keys cleaned.
Proof. exact (validated_invariants cleaned validated). Qed.

(** X12. A reply of the model that parses as JSON but is no object, or lacks one
    of the four required keys, or has another value than a string there,
    makes [rewriteContent] return the record it was given. *)
Theorem rewriteContent_rejects_incomplete (w : World) (raw : RestaurantSite.t)
    (content : string) (cleaned : Json.value) :
  chat_completion w raw = ApiResolves (Some content) ->
  Json.parse content = Ok cleaned ->
  ~ has_required_keys cleaned ->
  outcome (Rewrite.rewriteContent w raw) = Ok raw.
Proof.
  intros Hr Hp Hk.
  destruct (rewriteContent_cases w raw) as [site [Ho [-> | [_ Ha]]]]; [exact Ho |].
  exfalso. apply Hk.
  destruct Ha as [content' [cleaned' [Hr' [_ [Hp' Hv]]]]].
  rewrite Hr in Hr'. injection Hr' as <-. rewrite Hp in Hp'. injection Hp' as <-.
  apply validated_invariants in Hv. apply Hv.
Qed.

(** ** lib/images.ts *)

(** The cases of one download: the directory, the response, the write. *)
Ltac run_download w url dir :=
  destruct (fs_exists w dir); destruct (fs_mkdir_ok w dir);
  destruct (fetch w url) as [? | [|] ? ? [|]];
  cbn -[String.append Images.local_path Images.basename Js.or_default];
  try destruct (fs_write_ok w _);
  cbn -[String.append Images.local_path Images.basename Js.or_default].

(** X14. With a file name given that is not empty, [downloadImage] returns a
    path exactly when the directory is there or can be made, the response
    is a success whose body can be read, and the file can be written; the
    path is then the string [/_imports/<slug>/<filename>]. *)
Theorem downloadImage_returns_path_iff
    (w : World) (url slug filename : string) (p : string) :
  filename <> EmptyString ->
  (outcome (Images.downloadImage w url slug (Some filename)) = Ok (Some p) <->
   download_succeeds w slug url filename /\ p = "/_imports/" ++ slug ++ "/" ++ filename).
Proof.
  intros Hne.
  assert (Hf : Js.truthy filename = true) by (destruct filename; [contradiction | reflexivity]).
  unfold Images.downloadImage, Images.download, download_succeeds, imports_dir.
  unfold Js.truthy_opt. rewrite Hf.
  set (dir := cwd w ++ "/public/_imports/" ++ slug).
  destruct (fs_exists w dir); destruct (fs_mkdir_ok w dir);
    destruct (fetch w url) as [e | [|] status statusText [|]];
    cbn -[String.append Images.local_path Js.or_default];
    unfold Js.or_default; rewrite ?Hf;
    try destruct (fs_write_ok w _);
    cbn -[String.append];
    (split; [intros H; try discriminate H;
             injection H as <-; repeat split; eauto
            | intros [[H1 [[s1 [s2 H2]] H3]] ->];
              try discriminate; reflexivity]).
Qed.


(** X15. A file is written only after a successful response whose body could
    be read; and the one URL requested is the one given. *)
Theorem downloadImage_effects
    (w : World) (url slug : string) (filename : option string) :
  (forall path, In (FsWrite path) (events (Images.downloadImage w url slug filename)) ->
     exists status statusText, fetch w url = FetchResponse true status statusText true) /\
  (forall u, In (FetchRequest u) (events (Images.downloadImage w url slug filename)) ->
     u = url) /\
  (length (filter is_fetch (events (Images.downloadImage w url slug filename))) <= 1)%nat.
Proof.
  unfold Images.downloadImage, Images.download.
  set (dir := cwd w ++ "/public/_imports/" ++ slug).
  destruct (Js.truthy_opt filename).
  - run_download w url dir;
      (split; [intros path Hin | split; [intros u Hin | simpl; lia]]);
      simpl in Hin;
      repeat (destruct Hin as [Hin | Hin]; try discriminate Hin);
      try contradiction; eauto; try (injection Hin as <-; reflexivity).
  - unfold lift. destruct (Url.parse url) as [urlObj | e].
    + run_download w url dir;
        (split; [intros path Hin | split; [intros u Hin | simpl; lia]]);
        simpl in Hin;
        repeat (destruct Hin as [Hin | Hin]; try discriminate Hin);
        try contradiction; eauto; try (injection Hin as <-; reflexivity).
    + destruct (fs_exists w dir); destruct (fs_mkdir_ok w dir);
        cbn -[String.append];
        (split; [intros path Hin | split; [intros u Hin | simpl; lia]]);
        simpl in Hin;
        repeat (destruct Hin as [Hin | Hin]; try discriminate Hin);
        contradiction.
Qed.

(** X16. Without a file name, a URL that does not parse is given up before any
    request is sent. *)
Theorem downloadImage_unparseable_url
    (w : World) (url slug : string) (filename : option string) (e : Error) :
  Js.truthy_opt filename = false ->
  Url.parse url = Throw e ->
  outcome (Images.downloadImage w url slug filename) = Ok None /\
  filter is_fetch (events (Images.downloadImage w url slug filename)) = [].
Proof.
  intros Hf Hu. unfold Images.downloadImage, Images.download.
  rewrite Hf. unfold lift. rewrite Hu.
  set (dir := cwd w ++ "/public/_imports/" ++ slug).
  destruct (fs_exists w dir); destruct (fs_mkdir_ok w dir);
    cbn -[String.append]; split; reflexivity.
Qed.

Lemma localize_not_needed (w : World) (slug : string) (ref : option string) (filename : string) :
  needs_download ref = false -> Images.localize w slug ref filename = ret ref.
Proof.
  intros H. unfold Images.localize. destruct ref as [u |]; [| reflexivity].
  rewrite is_remote_needs_download, H. reflexivity.
Qed.

Lemma for_each_noop {A} (body : A -> M A) (l : list A) :
  Forall (fun a => body a = ret a) l -> for_each body l = ret l.
Proof.
  induction 1 as [| a l Ha _ IH]; [reflexivity |].
  simpl. rewrite Ha, IH. reflexivity.
Qed.

Lemma localize_item_not_needed (w : World) (slug : string) (i : MenuItem.t) :
  needs_download (MenuItem.image i) = false -> Images.localize_item w slug i = ret i.
Proof.
  intros H. unfold Images.localize_item. rewrite (localize_not_needed _ _ _ _ H).
  destruct i. reflexivity.
Qed.

Lemma localize_category_not_needed (w : World) (slug : string) (c : MenuCategory.t) :
  forallb (fun i => negb (needs_download (MenuItem.image i))) (MenuCategory.items c) = true ->
  Images.localize_category w slug c = ret c.
Proof.
  intros H. unfold Images.localize_category.
  rewrite for_each_noop.
  - destruct c. reflexivity.
  - rewrite forallb_forall in H. apply Forall_forall. intros i Hi.
    apply localize_item_not_needed. apply negb_true_iff, H, Hi.
Qed.

Lemma localize_section_not_needed (w : World) (slug : string) (s : SiteSection.t) :
  needs_download (SiteSection.image s) = false -> Images.localize_section w slug s = ret s.
Proof.
  intros H. unfold Images.localize_section. rewrite (localize_not_needed _ _ _ _ H).
  destruct s. reflexivity.
Qed.

Lemma downloadAllImages_idle (w : World) (site : RestaurantSite.t) (slug : string) :
  nothing_to_download site = true -> Images.downloadAllImages w site slug = ret site.
Proof.
  unfold nothing_to_download. intros H.
  apply andb_true_iff in H as [H Hs]. apply andb_true_iff in H as [H Hm].
  apply andb_true_iff in H as [Hh Hl]. apply negb_true_iff in Hh, Hl.
  unfold Images.downloadAllImages.
  rewrite (localize_not_needed _ _ _ _ Hh), (localize_not_needed _ _ _ _ Hl), !bind_ret_l.
  assert (Em : Images.for_each_opt (Images.localize_category w slug) (RestaurantSite.menu site)
               = ret (RestaurantSite.menu site)).
  { destruct (RestaurantSite.menu site) as [cats |]; [| reflexivity]. simpl.
    rewrite for_each_noop; [reflexivity |].
    rewrite forallb_forall in Hm. apply Forall_forall. intros c Hc.
    apply localize_category_not_needed, Hm, Hc. }
  assert (Es : Images.for_each_opt (Images.localize_section w slug)
                 (RestaurantSite.sections site) = ret (RestaurantSite.sections site)).
  { destruct (RestaurantSite.sections site) as [ss |]; [| reflexivity]. simpl.
    rewrite for_each_noop; [reflexivity |].
    rewrite forallb_forall in Hs. apply Forall_forall. intros s Hsi.
    apply localize_section_not_needed. apply negb_true_iff, Hs, Hsi. }
  rewrite Em, Es, !bind_ret_l. destruct site. reflexivity.
Qed.

(** X17. On a record each of whose image references is absent, empty or starts
    with a slash, [downloadAllImages] returns the record as it is, and has
    no effect: no request, no directory made, no file written, nothing
    printed. *)
Theorem downloadAllImages_nothing_to_do
    (w : World) (site : RestaurantSite.t) (slug : string) :
  nothing_to_download site = true -> Images.downloadAllImages w site slug = ([], Ok site).
Proof. exact (downloadAllImages_idle w site slug). Qed.

Lemma localized_no_download_left (w : World) (slug filename : string)
    (before after : option string) :
  (forall url, In (url, filename) (download_of before filename) ->
     download_succeeds w slug url filename) ->
  localized w slug filename before after -> needs_download after = false.
Proof.
  intros Hall [Hlocal [_ [Hsucc _]]].
  rewrite is_remote_needs_download in Hlocal, Hsucc.
  destruct (needs_download before) eqn:Hn.
  - destruct before as [u |]; [| discriminate Hn].
    rewrite (Hsucc u eq_refl eq_refl); [reflexivity |].
    apply Hall. unfold download_of. rewrite Hn. left. reflexivity.
  - rewrite (Hlocal eq_refl). exact Hn.
Qed.

Lemma items_no_download_left (w : World) (slug : string) (l l' : list MenuItem.t) :
  (forall i url, In i l ->
     In (url, Slug.slugify (MenuItem.name i) ++ ".jpg")
        (download_of (MenuItem.image i) (Slug.slugify (MenuItem.name i) ++ ".jpg")) ->
     download_succeeds w slug url (Slug.slugify (MenuItem.name i) ++ ".jpg")) ->
  Forall2 (item_localized w slug) l l' ->
  forallb (fun i => negb (needs_download (MenuItem.image i))) l' = true.
Proof.
  intros Hall HF. induction HF as [| i i' l1 l2 [_ [_ [_ [_ Hi]]]] _ IH]; [reflexivity |].
  simpl. rewrite IH.
  - rewrite (localized_no_download_left w slug _ _ _ (fun url => Hall i url (or_introl eq_refl)) Hi).
    reflexivity.
  - intros j url Hj. apply Hall. right. exact Hj.
Qed.

Lemma categories_no_download_left (w : World) (slug : string) (l l' : list MenuCategory.t) :
  (forall c i url, In c l -> In i (MenuCategory.items c) ->
     In (url, Slug.slugify (MenuItem.name i) ++ ".jpg")
        (download_of (MenuItem.image i) (Slug.slugify (MenuItem.name i) ++ ".jpg")) ->
     download_succeeds w slug url (Slug.slugify (MenuItem.name i) ++ ".jpg")) ->
  Forall2 (category_localized w slug) l l' ->
  forallb (fun c => forallb (fun i => negb (needs_download (MenuItem.image i)))
                      (MenuCategory.items c)) l' = true.
Proof.
  intros Hall HF. induction HF as [| c c' cs cs' [_ Hitems] _ IH]; [reflexivity |].
  simpl. rewrite IH.
  - rewrite (items_no_download_left w slug _ _
               (fun i url Hi => Hall c i url (or_introl eq_refl) Hi) Hitems).
    reflexivity.
  - intros d i url Hd. apply Hall. right. exact Hd.
Qed.

Lemma sections_no_download_left (w : World) (slug : string) (l l' : list SiteSection.t) :
  (forall s url, In s l ->
     In (url, Slug.slugify (SiteSection.title s) ++ ".jpg")
        (download_of (SiteSection.image s) (Slug.slugify (SiteSection.title s) ++ ".jpg")) ->
     download_succeeds w slug url (Slug.slugify (SiteSection.title s) ++ ".jpg")) ->
  Forall2 (section_localized w slug) l l' ->
  forallb (fun s => negb (needs_download (SiteSection.image s))) l' = true.
Proof.
  intros Hall HF. induction HF as [| s s' ss ss' [_ [_ Hi]] _ IH]; [reflexivity |].
  simpl. rewrite IH.
  - rewrite (localized_no_download_left w slug _ _ _ (fun url => Hall s url (or_introl eq_refl)) Hi).
    reflexivity.
  - intros t url Ht. apply Hall. right. exact Ht.
Qed.

(** X18. When every download that the record asks for succeeds, the record
    returned has no reference left that needs a download, and a later run
    on it, on any platform and for any slug, returns it unchanged without
    any effect. *)
Theorem downloadAllImages_settles (w : World) (site : RestaurantSite.t) (slug : string) :
  (forall url filename, In (url, filename) (downloads_of site) ->
     download_succeeds w slug url filename) ->
  exists site',
    outcome (Images.downloadAllImages w site slug) = Ok site' /\
    nothing_to_download site' = true /\
    forall w2 slug2, Images.downloadAllImages w2 site' slug2 = ([], Ok site').
Proof.
  intros Hall.
  destruct (downloadAllImages_spec w site slug)
    as [ev [hero [logo [menu [sections [Hrun [Lh [Ll [Lm Ls]]]]]]]]].
  rewrite Hrun. eexists. split; [reflexivity |].
  match goal with
  | |- nothing_to_download ?s = true /\ _ => assert (Hloc : nothing_to_download s = true)
  end.
  { unfold nothing_to_download. simpl.
    rewrite (localized_no_download_left w slug "hero.jpg" _ _
               (fun url Hin => Hall url "hero.jpg"
                                 (in_or_app _ _ _ (or_introl Hin))) Lh).
    rewrite (localized_no_download_left w slug "logo.jpg" _ _
               (fun url Hin => Hall url "logo.jpg"
                                 (in_or_app _ _ _ (or_intror
                                    (in_or_app _ _ _ (or_introl Hin))))) Ll).
    simpl. apply andb_true_iff. split.
    - destruct (RestaurantSite.menu site) as [cats |] eqn:Em, menu; simpl in Lm;
        try contradiction; [| reflexivity].
      apply (categories_no_download_left w slug cats); [| exact Lm].
      intros c i url Hc Hi Hin. apply Hall. unfold downloads_of. rewrite Em.
      apply in_or_app. right. apply in_or_app. right. apply in_or_app. left.
      apply in_flat_map. exists c. split; [exact Hc |].
      apply in_flat_map. exists i. split; [exact Hi | exact Hin].
    - destruct (RestaurantSite.sections site) as [ss |] eqn:Es, sections; simpl in Ls;
        try contradiction; [| reflexivity].
      apply (sections_no_download_left w slug ss); [| exact Ls].
      intros s url Hs Hin. apply Hall. unfold downloads_of. rewrite Es.
      apply in_or_app. right. apply in_or_app. right. apply in_or_app. right.
      apply in_flat_map. exists s. split; [exact Hs | exact Hin]. }
  split; [exact Hloc |].
  intros w2 slug2. apply downloadAllImages_idle, Hloc.
Qed.






(** ** lib/scrape.ts *)

Example parseInt_px : Extract.parseInt " 640px" = Extract.Fin 640.
Proof. reflexivity. Qed.
Example parseInt_hex : Extract.parseInt "0x1F" = Extract.Fin 31.
Proof. reflexivity. Qed.
Example parseInt_percent : Extract.parseInt "auto" = Extract.NaN.
Proof. reflexivity. Qed.
Example parseInt_exact : Extract.parseInt "9007199254740992" = Extract.Fin (2 ^ 53).
Proof. vm_compute. reflexivity. Qed.
Example parseInt_rounds_down :
  Extract.parseInt "9007199254740993" = Extract.Fin 9007199254740992.
Proof. vm_compute. reflexivity. Qed.
Example parseInt_rounds_up :
  Extract.parseInt "9007199254740995" = Extract.Fin 9007199254740996.
Proof. vm_compute. reflexivity. Qed.
Example parseInt_twenty_digits :
  Extract.parseInt "10000000000000000001" = Extract.Fin 10000000000000000000.
Proof. vm_compute. reflexivity. Qed.
Example parseInt_twenty_digits_neg :
  Extract.parseInt "-10000000000000000002" = Extract.Fin (-10000000000000000000).
Proof. vm_compute. reflexivity. Qed.
Example area_rounds :
  Extract.mul (Extract.Fin 94906267) (Extract.Fin 94906267) = Extract.Fin 9007199515875288.
Proof. vm_compute. reflexivity. Qed.
Example extractHeroImage_first_of_equal_areas :
  Extract.extractHeroImage None wide_images = Some "h.png".
Proof. vm_compute. reflexivity. Qed.

Lemma existsb_eqb_In (x : string) (l : list string) :
  existsb (String.eqb x) l = true <-> In x l.
Proof.
  rewrite existsb_exists. split.
  - intros [y [Hy He]]. apply String.eqb_eq in He. subst. exact Hy.
  - intros H. exists x. split; [exact H | apply String.eqb_refl].
Qed.

Lemma unique_In (l seen : list string) (x : string) :
  In x (Extract.unique seen l) <-> In x l /\ ~ In x seen.
Proof.
  revert seen. induction l as [| y l IH]; intros seen; simpl.
  - tauto.
  - destruct (existsb (String.eqb y) seen) eqn:E.
    + apply existsb_eqb_In in E. rewrite IH. split.
      * intros [H1 H2]. auto.
      * intros [[-> | H1] H2]; [contradiction | auto].
    + assert (Hn : ~ In y seen).
      { intros H. apply existsb_eqb_In in H. congruence. }
      simpl. rewrite IH. simpl. split.
      * intros [<- | [H1 H2]]; [auto |]. split; [auto |]. intros H. apply H2. auto.
      * intros [[<- | H1] H2]; [auto |].
        destruct (string_dec y x) as [-> | Hne]; [auto |].
        right. split; [exact H1 |]. intros [H | H]; [contradiction | contradiction].
Qed.

Lemma unique_NoDup (l seen : list string) : NoDup (Extract.unique seen l).
Proof.
  revert seen. induction l as [| y l IH]; intros seen; simpl.
  - constructor.
  - destruct (existsb (String.eqb y) seen); [apply IH |].
    constructor; [| apply IH].
    rewrite unique_In. intros [_ H]. apply H. left. reflexivity.
Qed.

(** X21. [extractImages] returns each image source once: a string is in the
    result exactly when it is the [src] of some [img], not empty and no
    data URI. *)
Theorem extractImages_spec (srcs : list (option string)) :
  NoDup (Extract.extractImages srcs) /\
  forall s, In s (Extract.extractImages srcs) <->
            exists src, In src srcs /\ collectable src s.
Proof.
  unfold Extract.extractImages. split; [apply unique_NoDup |].
  intros s. rewrite unique_In, in_flat_map. unfold collectable. split.
  - intros [[src [Hin Hs]] _]. exists src. split; [exact Hin |].
    destruct src as [s0 |]; [| destruct Hs].
    destruct (Js.truthy s0) eqn:Ht; [| destruct Hs].
    destruct (Js.startsWith "data:" s0) eqn:Hd; [destruct Hs |].
    simpl in Hs. destruct Hs as [-> | []]. auto.
  - intros [src [Hin [-> [Ht Hd]]]]. split; [| intros []].
    exists (Some s). split; [exact Hin |]. rewrite Ht, Hd. left. reflexivity.
Qed.

Lemma truthy_ne (s : string) : Js.truthy s = true -> s <> "".
Proof. destruct s; [discriminate | discriminate]. Qed.

(** X22. Every section that [extractSections] emits has a title that is not
    empty and a body of more than 50 characters. *)
Theorem extractSections_filter (doc : string -> list Extract.SectionElement) :
  Forall (fun s => SiteSection.title s <> "" /\
                   (50 < String.length (SiteSection.body s))%nat)
    (Extract.extractSections doc).
Proof.
  unfold Extract.extractSections. apply Forall_forall. intros s Hs.
  apply in_flat_map in Hs as [sel [_ Hs]].
  apply in_flat_map in Hs as [el [_ Hs]].
  unfold Extract.section_of_element in Hs.
  destruct (Js.truthy (Js.trim (Extract.sec_heading el))) eqn:Ht; [| destruct Hs].
  destruct (Js.truthy (Js.trim (Extract.sec_text el))) eqn:Hb; [| destruct Hs].
  destruct (50 <? String.length (Js.trim (Extract.sec_text el)))%nat eqn:Hl; [| destruct Hs].
  simpl in Hs. destruct Hs as [<- | []]. simpl.
  split; [apply truthy_ne, Ht | apply Nat.ltb_lt, Hl].
Qed.

Lemma item_of_element_named (el : Extract.ItemElement) :
  Forall (fun i => ScrapedItem.name i <> "") (Extract.item_of_element el).
Proof.
  unfold Extract.item_of_element.
  destruct (Js.truthy (Js.trim (Extract.item_name el))) eqn:Ht; [| constructor].
  constructor; [| constructor]. simpl. apply truthy_ne, Ht.
Qed.

(** X23. Every category that [extractMenu] emits has a name, at least one
    item, and only items with a name. *)
Theorem extractMenu_filter (doc : string -> list Extract.MenuElement) :
  Forall (fun c => ScrapedCategory.name c <> "" /\
                   ScrapedCategory.items c <> [] /\
                   Forall (fun i => ScrapedItem.name i <> "") (ScrapedCategory.items c))
    (Extract.extractMenu doc).
Proof.
  unfold Extract.extractMenu. apply Forall_forall. intros c Hc.
  apply in_flat_map in Hc as [sel [_ Hc]].
  apply in_flat_map in Hc as [el [_ Hc]].
  unfold Extract.category_of_element in Hc.
  destruct (Js.truthy (Js.trim (Extract.menu_heading el))) eqn:Ht; [| destruct Hc].
  destruct (0 <? length (flat_map Extract.item_of_element (Extract.menu_items el)))%nat
    eqn:Hl; [| destruct Hc].
  simpl in Hc. destruct Hc as [<- | []]. simpl.
  split; [apply truthy_ne, Ht |]. split.
  - intros E. rewrite E in Hl. discriminate Hl.
  - apply Forall_forall. intros i Hi.
    apply in_flat_map in Hi as [ie [_ Hi]].
    pose proof (item_of_element_named ie) as HF.
    rewrite Forall_forall in HF. apply HF, Hi.
Qed.




Lemma gt_trans_le (s l s' : Extract.number) :
  Extract.gt s l = true -> Extract.gt s' l = false -> Extract.gt s' s = false.
Proof.
  destruct s as [| x | [|]], l as [| y | [|]], s' as [| z | [|]]; simpl;
    try discriminate; try reflexivity; intros H1 H2.
  apply Z.ltb_lt in H1. apply Z.ltb_ge in H2. apply Z.ltb_ge. lia.
Qed.

Lemma gt_irrefl (s : Extract.number) : Extract.gt s s = false.
Proof. destruct s as [| x | [|]]; simpl; try reflexivity. apply Z.ltb_irrefl. Qed.

Lemma hero_step_state (images : list Extract.ImgElement) (largest : string * Extract.number)
    (img : Extract.ImgElement) :
  hero_state images largest ->
  hero_state (images ++ [img]) (Extract.hero_step largest img).
Proof.
  intros Hst. unfold Extract.hero_step.
  destruct (Extract.img_src img) as [src |] eqn:Hsrc.
  - cbv zeta.
    destruct (Js.truthy src && Extract.gt (Extract.area img) (snd largest)
              && Extract.gt (Extract.area img) (Extract.Fin 10000)) eqn:Hc.
    + apply andb_true_iff in Hc as [Hc H3]. apply andb_true_iff in Hc as [H1 H2].
      right. simpl. split.
      * exists img. split; [apply in_or_app; right; left; reflexivity |].
        unfold hero_candidate. auto.
      * intros img' src' size' Hin Hcand. apply in_app_or in Hin as [Hin | [<- | []]].
        -- destruct Hst as [[-> Hnone] | [_ Hmax]].
           ++ exfalso. exact (Hnone _ _ _ Hin Hcand).
           ++ exact (gt_trans_le _ _ _ H2 (Hmax _ _ _ Hin Hcand)).
        -- destruct Hcand as [_ [_ [<- _]]]. apply gt_irrefl.
    + destruct Hst as [[-> Hnone] | [[img0 [Hin0 Hc0]] Hmax]].
      * left. split; [reflexivity |].
        intros img' src' size' Hin Hcand. apply in_app_or in Hin as [Hin | [<- | []]].
        -- exact (Hnone _ _ _ Hin Hcand).
        -- destruct Hcand as [Hs' [Ht' [Ha' Hb']]].
           rewrite Hsrc in Hs'. injection Hs' as <-. subst size'.
           simpl in Hc. rewrite Ht', Hb' in Hc. simpl in Hc.
           rewrite andb_true_r in Hc.
           destruct (Extract.area img) as [| x | [|]]; simpl in *; try discriminate.
           apply Z.ltb_lt in Hb'. apply Z.ltb_ge in Hc. lia.
      * right. split.
        -- exists img0. split; [apply in_or_app; left; exact Hin0 | exact Hc0].
        -- intros img' src' size' Hin Hcand. apply in_app_or in Hin as [Hin | [<- | []]].
           ++ exact (Hmax _ _ _ Hin Hcand).
           ++ destruct Hcand as [Hs' [Ht' [Ha' Hb']]].
              rewrite Hsrc in Hs'. injection Hs' as <-. subst size'.
              rewrite Ht', Hb' in Hc. simpl in Hc. rewrite andb_true_r in Hc. exact Hc.
  - destruct Hst as [[-> Hnone] | [[img0 [Hin0 Hc0]] Hmax]].
    + left. split; [reflexivity |].
      intros img' src' size' Hin Hcand. apply in_app_or in Hin as [Hin | [<- | []]].
      * exact (Hnone _ _ _ Hin Hcand).
      * destruct Hcand as [Hs' _]. rewrite Hsrc in Hs'. discriminate.
    + right. split.
      * exists img0. split; [apply in_or_app; left; exact Hin0 | exact Hc0].
      * intros img' src' size' Hin Hcand. apply in_app_or in Hin as [Hin | [<- | []]].
        -- exact (Hmax _ _ _ Hin Hcand).
        -- destruct Hcand as [Hs' _]. rewrite Hsrc in Hs'. discriminate.
Qed.

Lemma hero_fold_state (rest done : list Extract.ImgElement)
    (largest : string * Extract.number) :
  hero_state done largest ->
  hero_state (done ++ rest) (fold_left Extract.hero_step rest largest).
Proof.
  revert done largest. induction rest as [| img rest IH]; intros done largest Hst; simpl.
  - rewrite app_nil_r. exact Hst.
  - replace (done ++ img :: rest)%list with ((done ++ [img]) ++ rest)%list
      by (rewrite <- app_assoc; reflexivity).
    apply IH, hero_step_state, Hst.
Qed.

(** X26. The hero image is the social-preview image when there is one.
    Otherwise it is the [src] of an image whose area, as the code computes
    it in binary64 numbers, is above 10000 and is not exceeded by the area
    of any such image on the page; and there is no hero image exactly when
    no image with a [src] has an area above 10000. *)
Theorem extractHeroImage_largest (og_image : option string)
    (images : list Extract.ImgElement) :
  (Js.truthy_opt og_image = true ->
     Extract.extractHeroImage og_image images = og_image) /\
  (Js.truthy_opt og_image = false ->
     (forall src, Extract.extractHeroImage og_image images = Some src ->
        exists img size,
          In img images /\ hero_candidate img src size /\
          forall img' src' size', In img' images -> hero_candidate img' src' size' ->
                                  Extract.gt size' size = false) /\
     (Extract.extractHeroImage og_image images = None ->
        forall img src size, In img images -> ~ hero_candidate img src size)).
Proof.
  unfold Extract.extractHeroImage. split.
  - intros ->. reflexivity.
  - intros ->.
    assert (Hst : hero_state images
                    (fold_left Extract.hero_step images (EmptyString, Extract.Fin 0))).
    { apply (hero_fold_state images [] (EmptyString, Extract.Fin 0)).
      left. split; [reflexivity |]. intros img src size []. }
    destruct (fold_left Extract.hero_step images ("", Extract.Fin 0))
      as [largestImage largestSize].
    simpl. split.
    + intros src H. destruct (Js.truthy largestImage) eqn:Ht; [| discriminate].
      injection H as <-.
      destruct Hst as [[E _] | [[img [Hin Hc]] Hmax]].
      * injection E as -> _. discriminate Ht.
      * exists img, largestSize. simpl in Hc, Hmax. auto.
    + intros H. destruct (Js.truthy largestImage) eqn:Ht; [discriminate |].
      destruct Hst as [[_ Hnone] | [[img [Hin Hc]] _]]; [exact Hnone |].
      destruct Hc as [_ [Hc _]]. simpl in Hc. congruence.
Qed.

Lemma business_type_true (data : Json.value) :
  Extract.business_type data = Ok true <-> is_business data.
Proof.
  unfold Extract.business_type, is_business. split.
  - destruct data as [| | | | | o]; try discriminate.
    destruct (Json.lookup "@type" o) as [[| | | t | |] |] eqn:Hl; try discriminate.
    intros H. injection H as H. exists o, t. split; [reflexivity |]. split; [exact Hl |].
    apply orb_true_iff in H as [H | H]; apply String.eqb_eq in H; auto.
  - intros [o [t [-> [-> Ht]]]]. destruct Ht as [-> | ->]; reflexivity.
Qed.

(** X27. What [extractJsonLd] returns is the parsed content of one of the
    scripts, an object whose [@type] is [Restaurant] or [LocalBusiness];
    and it returns nothing only if no script has such a content.  A
    script that does not parse does not hide a later one. *)
Theorem extractJsonLd_spec (scripts : list (option string)) :
  (forall data, Extract.extractJsonLd scripts = Some data ->
     is_business data /\
     exists content, In (Some content) scripts /\ Json.parse content = Ok data) /\
  (Extract.extractJsonLd scripts = None ->
     forall content data, In (Some content) scripts -> Js.truthy content = true ->
       Json.parse content = Ok data -> ~ is_business data).
Proof.
  induction scripts as [| c scripts [IH1 IH2]]; simpl.
  - split; [discriminate | intros _ content data []].
  - destruct c as [c |].
    + destruct (Js.truthy c) eqn:Ht.
      * destruct (Json.parse c) as [data0 | e] eqn:Hp; simpl.
        -- destruct (Extract.business_type data0) as [[|] | e] eqn:Hb; simpl.
           ++ split; [| discriminate].
              intros data H. injection H as <-. split.
              ** apply business_type_true, Hb.
              ** exists c. auto.
           ++ split.
              ** intros data H. destruct (IH1 data H) as [Hbus [content [Hin Hpc]]].
                 split; [exact Hbus |]. exists content. auto.
              ** intros H content data [Hc | Hin] Htc Hpc.
                 --- injection Hc as <-. rewrite Hp in Hpc. injection Hpc as <-.
                     intros Hbus. apply business_type_true in Hbus. congruence.
                 --- exact (IH2 H content data Hin Htc Hpc).
           ++ split.
              ** intros data H. destruct (IH1 data H) as [Hbus [content [Hin Hpc]]].
                 split; [exact Hbus |]. exists content. auto.
              ** intros H content data [Hc | Hin] Htc Hpc.
                 --- injection Hc as <-. rewrite Hp in Hpc. injection Hpc as <-.
                     intros Hbus. apply business_type_true in Hbus. congruence.
                 --- exact (IH2 H content data Hin Htc Hpc).
        -- split.
           ++ intros data H. destruct (IH1 data H) as [Hbus [content [Hin Hpc]]].
              split; [exact Hbus |]. exists content. auto.
           ++ intros H content data [Hc | Hin] Htc Hpc.
              ** injection Hc as <-. congruence.
              ** exact (IH2 H content data Hin Htc Hpc).
      * split.
        -- intros data H. destruct (IH1 data H) as [Hbus [content [Hin Hpc]]].
           split; [exact Hbus |]. exists content. auto.
        -- intros H content data [Hc | Hin] Htc Hpc.
           ++ injection Hc as <-. congruence.
           ++ exact (IH2 H content data Hin Htc Hpc).
    + split.
      * intros data H. destruct (IH1 data H) as [Hbus [content [Hin Hpc]]].
        split; [exact Hbus |]. exists content. auto.
      * intros H content data [Hc | Hin] Htc Hpc; [discriminate Hc |].
        exact (IH2 H content data Hin Htc Hpc).
Qed.

(** ** lib/normalize.ts, lib/slug.ts and scripts/scrape.ts *)



Lemma map_reviews_id (l : list Review.t) :
  map (fun review =>
         Review.mk (Review.source review) (Review.text review)
           (Review.rating review) (Review.author review)) l = l.
Proof. induction l as [| [s t r a] l IH]; simpl; [| rewrite IH]; reflexivity. Qed.

(** X4. Two URLs that parse to the same host name get the same slug, whatever
    their protocol, port, path, query and fragment. *)
Theorem createSlugFromUrl_same_host (u1 u2 : string) (o1 o2 : Url.t) :
  Url.parse u1 = Ok o1 -> Url.parse u2 = Ok o2 ->
  Url.hostname o1 = Url.hostname o2 ->
  Slug.createSlugFromUrl u1 = Slug.createSlugFromUrl u2.
Proof.
  intros H1 H2 Hh. rewrite !createSlugFromUrl_eq, H1, H2, Hh. reflexivity.
Qed.

Lemma rewriteContent_returns (w : World) (raw : RestaurantSite.t) :
  exists ev site, Rewrite.rewriteContent w raw = (ev, Ok site).
Proof.
  unfold Rewrite.rewriteContent.
  destruct (negb (Js.truthy_opt (env_OPENAI_API_KEY w))); [do 2 eexists; reflexivity |].
  destruct (Rewrite.ask_model w raw) as [ev [v | e]]; do 2 eexists; reflexivity.
Qed.

(** X28. For a scraped record whose fields have the types that the
    [ScrapedData] interface declares, the rest of the run (normalize,
    rewrite if asked, localize images) never throws.  Values of another
    type, which the scraper can take over from JSON-LD, are outside this
    statement. *)
Theorem build_never_throws (w : World) (useAI : bool) (d : ScrapedData.t) (url : string) :
  exists site, outcome (Pipeline.build w useAI d url) = Ok site.
Proof.
  unfold Pipeline.build.
  destruct (normalizeRestaurantData_returns w d url) as [normalized [Hn _]].
  rewrite Hn, bind_ret_l.
  assert (Hf : exists ev finalData,
             (if useAI then Rewrite.rewriteContent w normalized else ret normalized)
             = (ev, Ok finalData)).
  { destruct useAI; [apply rewriteContent_returns | do 2 eexists; reflexivity]. }
  destruct Hf as [ev [finalData Hf]]. rewrite Hf.
  rewrite createSlugFromUrl_eq.
  set (slug := match Url.parse url with
               | Ok urlObj => Slug.slugify (Slug.strip_www (Url.hostname urlObj))
               | Throw _ => Slug.slugify url
               end).
  destruct (downloadAllImages_spec w finalData slug)
    as [ev' [hero [logo [menu [sections [Hrun _]]]]]].
  unfold bind, ret. rewrite Hrun. eexists. reflexivity.
Qed.

(** X29. Without the rewriter, the slug of the final record is the slug under
    which the record is saved; its source URL is the URL given, its time
    stamp the clock reading, and reviews, images and hours are those of
    the normalizer. *)
Theorem build_without_rewriter (w : World) (d : ScrapedData.t) (url : string) :
  exists site slug,
    outcome (Pipeline.build w false d url) = Ok site /\
    Slug.createSlugFromUrl url = ret slug /\
    RestaurantSite.slug site = slug /\
    RestaurantSite.sourceUrl site = url /\
    RestaurantSite.lastScrapedAt site = now_iso w /\
    RestaurantSite.reviews site = Some (ScrapedData.reviews d) /\
    RestaurantSite.images site = Some (ScrapedData.images d) /\
    RestaurantSite.hours site = Normalize.parseHours (ScrapedData.hours d).
Proof.
  unfold Pipeline.build, Normalize.normalizeRestaurantData.
  rewrite createSlugFromUrl_eq, !bind_ret_l.
  set (slug := match Url.parse url with
               | Ok urlObj => Slug.slugify (Slug.strip_www (Url.hostname urlObj))
               | Throw _ => Slug.slugify url
               end).
  match goal with
  | |- context [Images.downloadAllImages w ?s slug] =>
      destruct (downloadAllImages_spec w s slug)
        as [ev' [hero [logo [menu [sections [Hrun _]]]]]]
  end.
  rewrite Hrun. do 2 eexists. split; [reflexivity |]. split; [reflexivity |].
  cbn [RestaurantSite.slug RestaurantSite.sourceUrl RestaurantSite.lastScrapedAt
       RestaurantSite.reviews RestaurantSite.images RestaurantSite.hours].
  rewrite map_reviews_id. repeat split.
Qed.

(** ** More on the schema and the run; instances *)


Lemma outcome_bind_events {A B} (ev : list Event) (a : A) (f : A -> M B) :
  outcome (bind (ev, Ok a) f) = outcome (f a).
Proof. simpl. destruct (f a). reflexivity. Qed.

(** X30. A run with the rewriter ends with the same record as a run without
    it, whenever no credential is configured or the reply of the model to
    the request of this run, the one made for the normalized record, is
    unusable. *)
Theorem build_rewriter_fallback (w : World) (d : ScrapedData.t) (url : string)
    (normalized : RestaurantSite.t) :
  Normalize.normalizeRestaurantData w d url = ret normalized ->
  Js.truthy_opt (env_OPENAI_API_KEY w) = false \/
  response_unusable (chat_completion w normalized) ->
  outcome (Pipeline.build w true d url) = outcome (Pipeline.build w false d url).
Proof.
  intros Hn H. unfold Pipeline.build.
  rewrite Hn, !bind_ret_l.
  assert (Hr : exists ev, Rewrite.rewriteContent w normalized = (ev, Ok normalized)).
  { unfold Rewrite.rewriteContent.
    destruct (Js.truthy_opt (env_OPENAI_API_KEY w)) eqn:Hk; simpl;
      [| eexists; reflexivity].
    destruct H as [H | H]; [discriminate H |].
    destruct (ask_model_unusable w normalized H) as [e He].
    destruct (Rewrite.ask_model w normalized) as [ev r]. simpl in He. subst r.
    eexists. reflexivity. }
  destruct Hr as [ev Hr]. rewrite Hr.
  match goal with
  | |- outcome (bind _ ?f) = _ => exact (outcome_bind_events ev normalized f)
  end.
Qed.

Lemma slugify_fixes_slugs_witness : Slug.slugify "beef-chow-mein" = "beef-chow-mein".
Proof. apply (slugify_fixes_slugs "beef-chow-mein"). reflexivity. Defined.

Lemma createSlugFromUrl_same_host_witness :
  Slug.createSlugFromUrl "https://example.com/menu?x=1#top"
  = Slug.createSlugFromUrl "http://example.com".
Proof.
  apply (createSlugFromUrl_same_host _ _
           (Url.mk "https:" "example.com" "/menu") (Url.mk "http:" "example.com" "/"));
    reflexivity.
Defined.

Lemma createSlugFromUrl_www_witness :
  Slug.createSlugFromUrl "http://www.example.com/" = Slug.createSlugFromUrl "https://example.com".
Proof.
  apply (createSlugFromUrl_www _ _
           (Url.mk "http:" "www.example.com" "/") (Url.mk "https:" "example.com" "/"));
    reflexivity.
Defined.

Lemma parseHours_entries_witness :
  [Hour.mk "Monday" "11:00am" "10:00pm"] <> [] /\
  Forall hour_well_formed [Hour.mk "Monday" "11:00am" "10:00pm"] /\
  exists s, Some ("Monday: 11:00am-10:00pm" ++ LF ++ "Closed") = Some s /\
    (length [Hour.mk "Monday" "11:00am" "10:00pm"] <= length (Normalize.hour_lines s))%nat.
Proof.
  apply (HoursFacts.parseHours_entries (Some ("Monday: 11:00am-10:00pm" ++ LF ++ "Closed"))).
  vm_compute. reflexivity.
Defined.

Lemma parseHours_needs_colon_witness : Normalize.parseHours (Some "Mon 9am-5pm") = None.
Proof. apply (HoursFacts.parseHours_needs_colon "Mon 9am-5pm"). reflexivity. Defined.

Lemma RestaurantSite_validated_invariants_witness :
  (forall reviews, RestaurantSite.reviews rated_site = Some reviews ->
     Forall rating_in_bounds reviews) /\
  (exists u, Url.parse (RestaurantSite.sourceUrl rated_site) = Ok u) /\
  has_required_keys rated_json.
Proof.
  apply (RestaurantSite_validated_invariants rated_json rated_site).
  vm_compute. reflexivity.
Defined.

Lemma rewriteContent_rejects_incomplete_witness :
  outcome (Rewrite.rewriteContent (world_with_model (ApiResolves (Some "{}"))) example_site)
  = Ok example_site.
Proof.
  apply (rewriteContent_rejects_incomplete
           (world_with_model (ApiResolves (Some "{}"))) example_site "{}" (Json.Obj [])).
  - reflexivity.
  - vm_compute. reflexivity.
  - intros [o [E [[s H] _]]]. injection E as <-. discriminate H.
Defined.

Lemma downloadImage_returns_path_iff_witness :
  outcome (Images.downloadImage one_missing_world "https://cdn.example.com/a.png"
             "examplecom" (Some "hero.jpg")) = Ok (Some "/_imports/examplecom/hero.jpg") /\
  outcome (Images.downloadImage one_missing_world "https://cdn.example.com/b.png"
             "examplecom" (Some "hero.jpg")) <> Ok (Some "/_imports/examplecom/hero.jpg").
Proof.
  split.
  - apply (downloadImage_returns_path_iff one_missing_world
             "https://cdn.example.com/a.png" "examplecom" "hero.jpg"
             "/_imports/examplecom/hero.jpg").
    + discriminate.
    + split; [| reflexivity]. unfold download_succeeds. simpl.
      split; [reflexivity |]. split; [do 2 eexists; reflexivity | reflexivity].
  - intros H.
    apply (downloadImage_returns_path_iff one_missing_world
             "https://cdn.example.com/b.png" "examplecom" "hero.jpg"
             "/_imports/examplecom/hero.jpg") in H; [| discriminate].
    destruct H as [[_ [[s1 [s2 H]] _]] _]. discriminate H.
Defined.

Lemma downloadImage_unparseable_url_witness :
  outcome (Images.downloadImage one_missing_world "not a url" "examplecom" None) = Ok None /\
  filter is_fetch (events (Images.downloadImage one_missing_world "not a url" "examplecom" None))
  = [].
Proof.
  apply (downloadImage_unparseable_url one_missing_world "not a url" "examplecom" None
           (TypeError "Invalid URL")); reflexivity.
Defined.

Lemma downloadAllImages_nothing_to_do_witness :
  Images.downloadAllImages offline_world local_image_site "examplecom"
  = ([], Ok local_image_site).
Proof.
  apply (downloadAllImages_nothing_to_do offline_world local_image_site "examplecom").
  reflexivity.
Defined.

Lemma downloadAllImages_settles_witness :
  (exists status statusText,
     fetch one_missing_world "https://cdn.example.com/b.png"
     = FetchResponse false status statusText true) /\
  exists site',
    outcome (Images.downloadAllImages one_missing_world four_image_site "examplecom")
      = Ok site' /\
    nothing_to_download site' = true /\
    forall w2 slug2, Images.downloadAllImages w2 site' slug2 = ([], Ok site').
Proof.
  split; [do 2 eexists; reflexivity |].
  apply (downloadAllImages_settles one_missing_world four_image_site "examplecom").
  intros url filename Hin. vm_compute in Hin.
  repeat (destruct Hin as [Hin | Hin];
          [injection Hin as <- <-; unfold download_succeeds; simpl;
           split; [reflexivity |]; split; [do 2 eexists; reflexivity | reflexivity] |]).
  destruct Hin.
Defined.




Lemma build_rewriter_fallback_witness :
  Js.truthy_opt (env_OPENAI_API_KEY selective_world) = true /\
  response_accepted (chat_completion selective_world rival_site) rival_site /\
  outcome (Pipeline.build selective_world true ten_out_of_ten_scraped "https://example.com")
  = outcome (Pipeline.build selective_world false ten_out_of_ten_scraped "https://example.com").
Proof.
  split; [reflexivity |]. split.
  - exists rival_reply, rival_json. repeat split; vm_compute; reflexivity.
  - apply (build_rewriter_fallback selective_world ten_out_of_ten_scraped
             "https://example.com"
             (RestaurantSite.mk "examplecom" "Restaurant" None None None None None None None
                None None (Some (Social.mk None None None None)) (Some [])
                (Some [Review.mk None "Best dumplings in Chinatown, hands down. 10/10"
                         (Some (10 # 1)) None])
                (Some []) (Some [])
                Normalize.default_theme "https://example.com" "2025-01-01T00:00:00.000Z")).
    + vm_compute. reflexivity.
    + right. right. right. exists (Json.Obj []). eexists. split; vm_compute; reflexivity.
Defined.
